(** * create-specra: the project-scaffolding pipeline

    A shallow embedding of the scaffolding code of create-specra
    (createProject of create-project.ts, and validateProjectName and
    detectPackageManager as the developer guide gives them), with the
    properties of the pipeline proved over it.

    The file system is a finite map from absolute paths to nodes, the
    pipeline a state-and-exit monad over a world that holds the file
    system and the trace of every effect performed so far. *)

From stdpp Require Import gmap strings list.
From Stdlib Require Import Ascii String.

Set Warnings "-register-all".

(* ===================================================================== *)
(** * Strings and paths *)
(* ===================================================================== *)

(** [String.prototype.includes]: [needle] occurs somewhere in [hay]. *)
Fixpoint includes (hay needle : string) : bool :=
  String.prefix needle hay ||
  match hay with
  | EmptyString => false
  | String _ rest => includes rest needle
  end.

Definition slash : ascii := ascii_of_nat 47.

(** The segments of a path string: the maximal runs between slashes,
    empty ones included. *)
Fixpoint split_slash (s : string) : list string :=
  match s with
  | EmptyString => [EmptyString]
  | String c rest =>
      if decide (c = slash) then EmptyString :: split_slash rest
      else match split_slash rest with
           | [] => [String c EmptyString]
           | seg :: segs => String c seg :: segs
           end
  end.

(** An absolute, normalised path: the names below the root directory. *)
Abbreviation path := (list string).

(** One step of Node's normalisation: empty and [.] segments vanish,
    [..] drops the last name (and does nothing at the root). *)
Definition walk_segment (acc : path) (seg : string) : path :=
  if decide (seg = "") then acc
  else if decide (seg = ".") then acc
  else if decide (seg = "..") then removelast acc
  else acc ++ [seg].

Definition walk (base : path) (segs : list string) : path :=
  foldl walk_segment base segs.

Definition is_absolute (s : string) : bool :=
  match s with
  | String c _ => bool_decide (c = slash)
  | EmptyString => false
  end.

(** [path.resolve(p)] on POSIX, with the working directory explicit. *)
Definition path_resolve (cwd : path) (p : string) : path :=
  walk (if is_absolute p then [] else cwd) (split_slash p).

(** [path.join(base, ...parts)] for an absolute [base]. *)
Definition path_join (base : path) (parts : list string) : path :=
  walk base (parts ≫= split_slash).

(** [path.basename]: the last name, empty for the root directory. *)
Definition path_basename (p : path) : string := List.last p "".

(** [path.dirname(p)]. *)
Definition path_dirname (p : path) : path := removelast p.

(** The path as Node prints it. *)
Definition path_to_string (p : path) : string :=
  match p with
  | [] => "/"
  | _ => String.concat "" (map (fun seg => "/" +:+ seg) p)
  end.

(* ===================================================================== *)
(** * Name validation (utils.ts) *)
(* ===================================================================== *)

(** The answer of validate-npm-package-name: two verdicts, and the lists
    of errors and warnings, each absent when it would be empty. *)
Record NpmValidation := {
  validForNewPackages : bool;
  validForOldPackages : bool;
  nv_errors : option (list string);
  nv_warnings : option (list string)
}.

(** [validation.valid]: the answer has no member of that name, so the
    read gives [undefined]. *)
Definition read_valid (validation : NpmValidation) : option bool := None.

(** The truth value of a boolean that may be [undefined]. *)
Definition truthy (v : option bool) : bool := default false v.

(** The object validateProjectName returns; [problems] is absent in the
    valid branch. *)
Record NameCheck := {
  valid : bool;
  problems : option (list string)
}.

Definition or_empty (l : option (list string)) : list string := default [] l.

Definition validateProjectName (validateNpmName : string -> NpmValidation)
    (name : string) : NameCheck :=
  let validation := validateNpmName name in
  if truthy (read_valid validation) then {| valid := true; problems := None |}
  else {| valid := false;
          problems := Some (or_empty (nv_errors validation) ++
                            or_empty (nv_warnings validation)) |}.

(* ===================================================================== *)
(** * Package-manager detection *)
(* ===================================================================== *)

Inductive PackageManager := npm | yarn | pnpm.

#[global] Instance PackageManager_eq_dec : EqDecision PackageManager.
Proof. solve_decision. Defined.

Definition pm_name (pm : PackageManager) : string :=
  match pm with npm => "npm" | yarn => "yarn" | pnpm => "pnpm" end.

(** The selection flags of the parsed command line. *)
Record CreateOptions := {
  useNpm : bool;
  useYarn : bool;
  usePnpm : bool
}.

(** [userAgent?.includes(word)]: false when the variable is unset. *)
Definition agent_includes (userAgent : option string) (word : string) : bool :=
  match userAgent with
  | Some ua => includes ua word
  | None => false
  end.

(** [userAgent] is [process.env.npm_config_user_agent]. *)
Definition detectPackageManager (options : CreateOptions)
    (userAgent : option string) : PackageManager :=
  if useNpm options then npm
  else if useYarn options then yarn
  else if usePnpm options then pnpm
  else if agent_includes userAgent "yarn" then yarn
  else if agent_includes userAgent "pnpm" then pnpm
  else npm.

(** The three selection flags, declared as boolean options
    ([.option('--use-npm', ...)], [--use-pnpm], [--use-yarn]). A value of
    this type stands for one occurrence that commander has recognised as
    that option; a word after [--], or one taken as the value of
    [--template], is none. *)
Inductive flag := UseNpm | UseYarn | UsePnpm.

#[global] Instance flag_eq_dec : EqDecision flag.
Proof. solve_decision. Defined.

(** The options before any flag is met: all three unset. *)
Definition no_flags : CreateOptions :=
  {| useNpm := false; useYarn := false; usePnpm := false |}.

(** Commander sets the option of a boolean flag when it meets the flag. *)
Definition set_flag (options : CreateOptions) (f : flag) : CreateOptions :=
  match f with
  | UseNpm => {| useNpm := true; useYarn := useYarn options; usePnpm := usePnpm options |}
  | UseYarn => {| useNpm := useNpm options; useYarn := true; usePnpm := usePnpm options |}
  | UsePnpm => {| useNpm := useNpm options; useYarn := useYarn options; usePnpm := true |}
  end.

(** The options after the recognised flags, met in the order of the
    command line. *)
Definition options_of_flags (seen : list flag) : CreateOptions :=
  foldl set_flag no_flags seen.

(** The request's override as the flags that express it. *)
Definition options_of_override (o : option PackageManager) : CreateOptions :=
  {| useNpm := bool_decide (o = Some npm);
     useYarn := bool_decide (o = Some yarn);
     usePnpm := bool_decide (o = Some pnpm) |}.


(* ===================================================================== *)
(** * The file system *)
(* ===================================================================== *)

(** What a path holds. The map has an entry for every existing path; a
    directory's entries are the paths one name longer. *)
Inductive node := File (data : string) | Dir.

Abbreviation FS := (gmap path node).

(** [strip_prefix d k] is the rest of [k] below [d], when [k] is at or
    below [d]. *)
Fixpoint strip_prefix (d k : path) : option path :=
  match d, k with
  | [], _ => Some k
  | x :: d', y :: k' => if decide (x = y) then strip_prefix d' k' else None
  | _ :: _, [] => None
  end.

(** [fs.readdirSync]: the names directly below [d]. *)
Definition readdir (fs : FS) (d : path) : list string :=
  omap (fun kn : path * node =>
          match strip_prefix d kn.1 with
          | Some [name] => Some name
          | _ => None
          end) (map_to_list fs).

(** [fs.mkdirSync(p, { recursive: true })]: every missing directory on the
    way to [base ++ segs] is created; a file on the way makes it fail. *)
Fixpoint mkdirp (base : path) (segs : list string) (fs : FS) : option FS :=
  match segs with
  | [] => Some fs
  | s :: rest =>
      let p := base ++ [s] in
      match fs !! p with
      | Some (File _) => None
      | Some Dir => mkdirp p rest fs
      | None => mkdirp p rest (<[p := Dir]> fs)
      end
  end.

(** The entries at and below [src], re-rooted at [dst]. *)
Definition graft (fs : FS) (src dst : path) : FS :=
  list_to_map
    (omap (fun kn : path * node =>
             (fun rel => (dst ++ rel, kn.2)) <$> strip_prefix src kn.1)
          (map_to_list fs)).

(** The file system without the entries at and below [d]. *)
Definition prune (fs : FS) (d : path) : FS :=
  filter (fun kn : path * node => strip_prefix d kn.1 = None) fs.

(** The tree at [src] copied over [dst]: same structure, same contents,
    same relative paths; what [dst] held elsewhere stays. *)
Definition copy_tree (fs : FS) (src dst : path) : FS :=
  graft fs src dst ∪ fs.

(** A rename that goes through: the entry at [src], with all below it,
    moves to [dst] and replaces what was there. *)
Definition move_tree (fs : FS) (src dst : path) : FS :=
  graft fs src dst ∪ prune (prune fs dst) src.

(* ===================================================================== *)
(** * JSON documents *)
(* ===================================================================== *)

(** A parsed JSON value; the members of an object are in the order of its
    own properties. A number is kept by its text. *)
Inductive json :=
| JNull
| JBool (b : bool)
| JNumber (text : string)
| JString (s : string)
| JArray (items : list json)
| JObject (members : list (string * json)).

(** [obj[key] = v] on a plain object: an existing property keeps its
    place, a new one goes last. *)
Fixpoint set_member (key : string) (v : json) (members : list (string * json))
    : list (string * json) :=
  match members with
  | [] => [(key, v)]
  | (k, x) :: rest =>
      if decide (k = key) then (k, v) :: rest
      else (k, x) :: set_member key v rest
  end.

Fixpoint get_member (key : string) (members : list (string * json)) : option json :=
  match members with
  | [] => None
  | (k, x) :: rest => if decide (k = key) then Some x else get_member key rest
  end.

(** [doc.name = v] in strict mode: it sets the member of an object, is
    lost on an array (JSON.stringify writes the elements only), and is a
    TypeError on null and on a primitive. *)
Definition assign_name (doc : json) (v : json) : option json :=
  match doc with
  | JObject members => Some (JObject (set_member "name" v members))
  | JArray items => Some (JArray items)
  | _ => None
  end.

(* ===================================================================== *)
(** * Effects *)
(* ===================================================================== *)

(** What the pipeline hands to a child process: the install command line
    of the package manager, or one of the two steps of repository
    initialisation. *)
Inductive command :=
| CmdLine (line : string)
| VcsInit
| VcsCommit.

(** [{ install, run }] of getPackageManagerCommand. *)
Record PackageManagerCommand := {
  pmc_install : string;
  pmc_run : string -> string
}.

Inductive error :=
| ENOENT (p : path)
| ENOTDIR (p : path)
| EISDIR (p : path)
| ENOTEMPTY (p : path)
| EINVAL (p : path)
| SyntaxError
| TypeError
| ChildFailed (cmd : command).

(** Every effectful call of a run, in order. *)
Inductive event :=
| Mkdir (p : path)
| CopyTree (src dst : path)
| WriteFile (p : path) (data : string)
| Rename (src dst : path)
| Spawn (cmd : command) (dir : path)
| Log (line : string)
| Err (line : string).

Record World := {
  files : FS;
  trace : list event
}.

(** The surroundings of a run. *)
Record Env := {
  (** [process.cwd()] *)
  cwd : path;
  (** [__dirname] of the running module *)
  module_dir : path;
  (** isWriteable of utils.ts: the process may write to the path *)
  isWriteable : path -> bool;
  (** the allow-list of isFolderEmpty of utils.ts *)
  benign : string -> bool;
  (** getPackageManagerCommand of utils.ts *)
  getPackageManagerCommand : string -> PackageManagerCommand;
  (** [JSON.parse], [None] for a SyntaxError *)
  JSON_parse : string -> option json;
  (** [JSON.stringify(value, null, indent)] *)
  JSON_stringify : json -> nat -> string;
  (** a child process run to its end: whether it exited with status zero,
      and the file system it leaves *)
  child : command -> path -> FS -> bool * FS
}.

(** How a computation ends: with a value, by [process.exit], or by an
    exception nobody caught. *)
Inductive outcome (A : Type) :=
| Ret (a : A)
| Exit (code : Z)
| Throw (e : error).
Arguments Ret {A} a.
Arguments Exit {A} code.
Arguments Throw {A} e.

Definition M (A : Type) : Type := World -> outcome A * World.

#[global] Instance M_ret : MRet M := fun A a w => (Ret a, w).

#[global] Instance M_bind : MBind M := fun A B k m w =>
  match m w with
  | (Ret a, w') => k a w'
  | (Exit c, w') => (Exit c, w')
  | (Throw e, w') => (Throw e, w')
  end.

Definition skip : M unit := mret tt.

Definition throw {A} (e : error) : M A := fun w => (Throw e, w).

(** [process.exit(code)] *)
Definition process_exit {A} (code : Z) : M A := fun w => (Exit code, w).

(** [try { m } catch (e) { h e }]; [process.exit] is not an exception. *)
Definition try_catch {A} (m : M A) (h : error -> M A) : M A := fun w =>
  match m w with
  | (Throw e, w') => h e w'
  | r => r
  end.

Definition emit (e : event) : M unit := fun w =>
  (Ret tt, {| files := files w; trace := trace w ++ [e] |}).

Definition get_files : M FS := fun w => (Ret (files w), w).

Definition put_files (fs : FS) : M unit := fun w =>
  (Ret tt, {| files := fs; trace := trace w |}).

Definition console_log (line : string) : M unit := emit (Log line).
Definition console_error (line : string) : M unit := emit (Err line).

Definition existsSync (p : path) : M bool :=
  fs ← get_files; mret (bool_decide (is_Some (fs !! p))).

Definition mkdirSync (p : path) : M unit :=
  emit (Mkdir p);;
  fs ← get_files;
  match mkdirp [] p fs with
  | Some fs' => put_files fs'
  | None => throw (ENOTDIR p)
  end.

Definition readFileSync (p : path) : M string :=
  fs ← get_files;
  match fs !! p with
  | Some (File data) => mret data
  | Some Dir => throw (EISDIR p)
  | None => throw (ENOENT p)
  end.

Definition writeFileSync (p : path) (data : string) : M unit :=
  emit (WriteFile p data);;
  fs ← get_files;
  match fs !! p with
  | Some Dir => throw (EISDIR p)
  | _ => put_files (<[p := File data]> fs)
  end.

(** Why [fs.renameSync(src, dst)] fails, when it does: the source is
    missing; a file would replace a directory, or a directory a file; a
    directory would replace one that is not empty, or move below itself.
    Renaming an entry to itself is no failure. As in [writeFileSync], the
    directory that is to hold the target is not looked at. *)
Definition rename_error (fs : FS) (src dst : path) : option error :=
  match fs !! src with
  | None => Some (ENOENT src)
  | Some (File _) =>
      match fs !! dst with
      | Some Dir => Some (EISDIR dst)
      | _ => None
      end
  | Some Dir =>
      if decide (src = dst) then None
      else if bool_decide (is_Some (strip_prefix src dst)) then Some (EINVAL dst)
      else match fs !! dst with
           | Some (File _) => Some (ENOTDIR dst)
           | Some Dir =>
               match readdir fs dst with
               | [] => None
               | _ :: _ => Some (ENOTEMPTY dst)
               end
           | None => None
           end
  end.

Definition renameSync (src dst : path) : M unit :=
  emit (Rename src dst);;
  fs ← get_files;
  match rename_error fs src dst with
  | Some e => throw e
  | None => put_files (if decide (src = dst) then fs else move_tree fs src dst)
  end.

(* ===================================================================== *)
(** * The pipeline (create-project.ts) *)
(* ===================================================================== *)

Record CreateProjectOptions := {
  projectName : string;
  template : string;
  packageManager : string;
  skipInstall : bool
}.

Section Pipeline.

Variable env : Env.

(** [execSync(cmd, { cwd })]: blocks until the child ends and throws when
    its exit status is not zero. *)
Definition execSync (cmd : command) (dir : path) : M unit :=
  emit (Spawn cmd dir);;
  fs ← get_files;
  let r := child env cmd dir fs in
  put_files r.2;;
  if r.1 then skip else throw (ChildFailed cmd).

(** Modelled from the spec: isFolderEmpty of utils.ts is not among the
    sources. "If it exists, its entries must be empty or limited to a fixed
    allow-list of benign artifacts". *)
Definition isFolderEmpty (root : path) : M bool :=
  fs ← get_files; mret (forallb (benign env) (readdir fs root)).

(** Modelled from the spec: copyRecursive of utils.ts is not among the
    sources. "Performs a full recursive copy of the template root into the
    destination, preserving directory structure, file contents, and
    relative paths exactly". *)
Definition copyRecursive (src dst : path) : M unit :=
  emit (CopyTree src dst);;
  fs ← get_files;
  put_files (copy_tree fs src dst).

(** Modelled from the spec: tryGitInit of utils.ts is not among the
    sources. "Attempts to initialize a repository and create an initial
    commit inside the destination. Any failure (tool absent,
    initialization error) is swallowed entirely"; both steps go through
    the command executor. *)
Definition tryGitInit (root : path) : M bool :=
  try_catch (execSync VcsInit root;; execSync VcsCommit root;; mret true)
            (fun _ => mret false).

(** // Check if directory exists *)
Definition checkDirectory (o : CreateProjectOptions) (root : path) : M unit :=
  found ← existsSync root;
  if (found : bool) then
    (if negb (isWriteable env root) then
       console_error ("The directory " +:+ projectName o +:+ " is not writable.");;
       process_exit 1
     else skip);;
    empty ← isFolderEmpty root;
    if negb empty then
      console_error ("The directory " +:+ projectName o +:+
                     " contains files that could conflict. Please use a new directory.");;
      process_exit 1
    else skip
  else mkdirSync root.

(** // Create project structure based on template *)
Definition resolveTemplate (o : CreateProjectOptions) : M path :=
  let templateDir := path_join (module_dir env) [".."; "templates"; template o] in
  found ← existsSync templateDir;
  (if negb found then
     console_error ("Template " +:+ template o +:+ " not found.");;
     process_exit 1
   else skip);;
  mret templateDir.

(** // Update package.json with project name *)
Definition updatePackageJson (root : path) (appName : string) : M unit :=
  let packageJsonPath := root ++ ["package.json"] in
  text ← readFileSync packageJsonPath;
  match JSON_parse env text with
  | None => throw SyntaxError
  | Some parsed =>
      match assign_name parsed (JString appName) with
      | None => throw TypeError
      | Some packageJson =>
          writeFileSync packageJsonPath
            (JSON_stringify env packageJson 2 +:+ String (ascii_of_nat 10) "")
      end
  end.

(** // Rename gitignore *)
Definition renameGitignore (root : path) : M unit :=
  let gitignorePath := root ++ ["gitignore"] in
  found ← existsSync gitignorePath;
  if (found : bool) then renameSync gitignorePath (root ++ [".gitignore"]) else skip.

(** // Install dependencies *)
Definition installDependencies (o : CreateProjectOptions) (root : path) : M unit :=
  if negb (skipInstall o) then
    console_log "Installing dependencies...";;
    console_log "";;
    let command := getPackageManagerCommand env (packageManager o) in
    try_catch (execSync (CmdLine (pmc_install command)) root)
      (fun _ => console_error "Failed to install dependencies.";; process_exit 1);;
    console_log ""
  else skip.

(** // Initialize git *)
Definition initializeGit (root : path) : M unit :=
  done ← tryGitInit root;
  if (done : bool) then console_log "Initialized a git repository.";; console_log ""
  else skip.

(** // Success message *)
Definition successMessage (o : CreateProjectOptions) (root : path)
    (appName : string) : M unit :=
  console_log ("Success!" +:+ " Created " +:+ appName +:+ " at " +:+ path_to_string root);;
  console_log "";;
  console_log "Inside that directory, you can run several commands:";;
  console_log "";;
  let command := getPackageManagerCommand env (packageManager o) in
  console_log ("  " +:+ pmc_run command "dev");;
  console_log "    Starts the development server.";;
  console_log "";;
  console_log ("  " +:+ pmc_run command "build");;
  console_log "    Builds the app for production.";;
  console_log "";;
  console_log ("  " +:+ pmc_run command "start");;
  console_log "    Runs the built app in production mode.";;
  console_log "";;
  console_log "We suggest that you begin by typing:";;
  console_log "";;
  console_log ("  cd" +:+ " " +:+ projectName o);;
  console_log ("  " +:+ pmc_run command "dev");;
  console_log "".

(** Stages 4.3 to 4.5: the destination check, the template and the copy. *)
Definition materialize (o : CreateProjectOptions) : M unit :=
  let root := path_resolve (cwd env) (projectName o) in
  checkDirectory o root;;
  console_log ("Creating a new Specra documentation site in " +:+ path_to_string root);;
  console_log "";;
  templateDir ← resolveTemplate o;
  console_log ("Using template: " +:+ template o);;
  console_log "";;
  copyRecursive templateDir root.

(** The run up to the point where dependencies would be installed. *)
Definition scaffold (o : CreateProjectOptions) : M unit :=
  let root := path_resolve (cwd env) (projectName o) in
  let appName := path_basename root in
  materialize o;;
  updatePackageJson root appName;;
  renameGitignore root.

Definition createProject (o : CreateProjectOptions) : M unit :=
  let root := path_resolve (cwd env) (projectName o) in
  let appName := path_basename root in
  scaffold o;;
  installDependencies o root;;
  initializeGit root;;
  successMessage o root appName.

(** A run from a file system, with an empty trace. *)
Definition run {A} (m : M A) (fs : FS) : outcome A * World :=
  m {| files := fs; trace := [] |}.

End Pipeline.

(* ===================================================================== *)
(** * A concrete installation *)
(* ===================================================================== *)

Module Demo.

Definition quote : string := String (ascii_of_nat 34) "".
Definition newline : string := String (ascii_of_nat 10) "".

Fixpoint spaces (n : nat) : string :=
  match n with
  | O => ""
  | S k => String (ascii_of_nat 32) (spaces k)
  end.

(** Quotes and backslashes get a backslash; the names and versions of a
    manifest hold no other character that JSON escapes. *)
Fixpoint escape (s : string) : string :=
  match s with
  | EmptyString => EmptyString
  | String c rest =>
      if decide (c = ascii_of_nat 34) then String (ascii_of_nat 92) (String c (escape rest))
      else if decide (c = ascii_of_nat 92) then String (ascii_of_nat 92) (String c (escape rest))
      else String c (escape rest)
  end.

Definition quoted (s : string) : string := quote +:+ escape s +:+ quote.

(** [JSON.stringify(v, null, step)] at nesting depth [depth]. *)
Fixpoint stringify_at (step depth : nat) (v : json) : string :=
  match v with
  | JNull => "null"
  | JBool true => "true"
  | JBool false => "false"
  | JNumber text => text
  | JString s => quoted s
  | JArray [] => "[]"
  | JArray items =>
      "[" +:+ newline +:+
      String.concat ("," +:+ newline)
        (map (fun x => spaces (step * S depth) +:+ stringify_at step (S depth) x) items) +:+
      newline +:+ spaces (step * depth) +:+ "]"
  | JObject [] => "{}"
  | JObject members =>
      "{" +:+ newline +:+
      String.concat ("," +:+ newline)
        (map (fun kx : string * json =>
                spaces (step * S depth) +:+ quoted kx.1 +:+ ": " +:+
                stringify_at step (S depth) kx.2) members) +:+
      newline +:+ spaces (step * depth) +:+ "}"
  end.

Definition stringify (v : json) (step : nat) : string := stringify_at step 0 v.

(** The manifest the minimal template ships. *)
Definition template_manifest : json :=
  JObject [("name", JString "specra-template-minimal");
           ("version", JString "0.1.0");
           ("private", JBool true);
           ("scripts", JObject [("dev", JString "next dev");
                                ("build", JString "next build");
                                ("start", JString "next start")]);
           ("dependencies", JObject [("specra", JString "^0.1.7");
                                     ("next", JString "^16.0.0")])].

Definition template_manifest_text : string :=
  Eval vm_compute in stringify template_manifest 2 +:+ newline.

(** A parser that knows the text of the shipped manifest. *)
Definition parse (text : string) : option json :=
  if decide (text = template_manifest_text) then Some template_manifest else None.

Definition allow_list : list string :=
  [".git"; ".DS_Store"; "Thumbs.db"; ".idea"; "LICENSE"; ".editorconfig"].

Definition commands (pm : string) : PackageManagerCommand :=
  {| pmc_install := pm +:+ " install";
     pmc_run := fun script => pm +:+ " run " +:+ script |}.

(** Children: the installer leaves node_modules behind when it succeeds,
    repository initialisation leaves .git. *)
Definition children (install_ok git_ok : bool) (cmd : command) (dir : path)
    (fs : FS) : bool * FS :=
  match cmd with
  | CmdLine _ => (install_ok, if install_ok then <[dir ++ ["node_modules"] := Dir]> fs else fs)
  | VcsInit => (git_ok, if git_ok then <[dir ++ [".git"] := Dir]> fs else fs)
  | VcsCommit => (git_ok, fs)
  end.

Definition env (install_ok git_ok : bool) : Env :=
  {| cwd := ["home"; "user"];
     module_dir := ["pkg"; "dist"];
     isWriteable := fun _ => true;
     benign := fun name => bool_decide (name ∈ allow_list);
     getPackageManagerCommand := commands;
     JSON_parse := parse;
     JSON_stringify := stringify;
     child := children install_ok git_ok |}.

Definition minimal : path := ["pkg"; "templates"; "minimal"].

(** The tool installed under /pkg, and an empty home directory. *)
Definition disk : FS :=
  list_to_map
    [([], Dir); (["pkg"], Dir); (["pkg"; "dist"], Dir); (["pkg"; "templates"], Dir);
     (minimal, Dir);
     (minimal ++ ["package.json"], File template_manifest_text);
     (minimal ++ ["gitignore"], File "node_modules");
     (minimal ++ ["app"], Dir);
     (minimal ++ ["app"; "page.tsx"], File "export default function Page() {}");
     (["home"], Dir); (["home"; "user"], Dir)].

(** The same, with a directory that holds the user's notes. *)
Definition disk_with_notes : FS :=
  <[["home"; "user"; "existing-dir"; "notes.txt"] := File "keep me"]>
    (<[["home"; "user"; "existing-dir"] := Dir]> disk).

Definition request (dir tpl : string) (skip_install : bool) : CreateProjectOptions :=
  {| projectName := dir; template := tpl; packageManager := "npm";
     skipInstall := skip_install |}.

End Demo.


(* ===================================================================== *)
(** * Vocabulary of the statements *)
(* ===================================================================== *)

(** The same surroundings with other child processes. *)
Definition with_child (e : Env) (c : command -> path -> FS -> bool * FS) : Env :=
  {| cwd := cwd e; module_dir := module_dir e; isWriteable := isWriteable e;
     benign := benign e; getPackageManagerCommand := getPackageManagerCommand e;
     JSON_parse := JSON_parse e; JSON_stringify := JSON_stringify e; child := c |}.

(** The same request with another [skipInstall]. *)
Definition with_skipInstall (o : CreateProjectOptions) (b : bool) : CreateProjectOptions :=
  {| projectName := projectName o; template := template o;
     packageManager := packageManager o; skipInstall := b |}.

(** The destination and the template directory of a request. *)
Definition destination (e : Env) (o : CreateProjectOptions) : path :=
  path_resolve (cwd e) (projectName o).

Definition template_dir (e : Env) (o : CreateProjectOptions) : path :=
  path_join (module_dir e) [".."; "templates"; template o].

(** The file system as the destination check leaves it when it passes by
    creating the destination. *)
Definition prepared (fs : FS) (root : path) : option FS :=
  match fs !! root with
  | Some _ => Some fs
  | None => mkdirp [] root fs
  end.

(** The children a trace spawned. *)
Definition spawned (tr : list event) : list (command * path) :=
  omap (fun e => match e with Spawn c d => Some (c, d) | _ => None end) tr.

(** The files a trace wrote. *)
Definition written (tr : list event) : list (path * string) :=
  omap (fun e => match e with WriteFile p d => Some (p, d) | _ => None end) tr.

(** The lines a trace sent to the error stream, and to either stream. *)
Definition errors (tr : list event) : list string :=
  omap (fun e => match e with Err l => Some l | _ => None end) tr.

Definition console (tr : list event) : list string :=
  omap (fun e => match e with Log l | Err l => Some l | _ => None end) tr.


Definition is_install (c : command) : bool :=
  match c with CmdLine _ => true | _ => false end.

Definition is_write (e : event) : bool :=
  match e with WriteFile _ _ => true | _ => false end.

Definition spawns_install (e : event) : bool :=
  match e with Spawn (CmdLine _) _ => true | _ => false end.

Fixpoint has_slash (s : string) : bool :=
  match s with
  | EmptyString => false
  | String c rest => bool_decide (c = slash) || has_slash rest
  end.

(** A directory name proper: not empty, not [.] or [..], no slash. *)
Definition plain_name (name : string) : Prop :=
  has_slash name = false ∧ name ≠ "" ∧ name ≠ "." ∧ name ≠ "..".

(* ===================================================================== *)
(** * Paths *)
(* ===================================================================== *)

Lemma split_slash_nonempty s : split_slash s ≠ [].
Proof.
  destruct s as [|c s]; simpl; [done|].
  case_decide; [done|]. by destruct (split_slash s).
Qed.

Lemma split_slash_plain s : has_slash s = false → split_slash s = [s].
Proof.
  induction s as [|c s IH]; simpl; [done|].
  intros [Hc Hs]%orb_false_iff. apply bool_decide_eq_false in Hc.
  rewrite decide_False by done. by rewrite IH.
Qed.

Lemma split_slash_app a b :
  split_slash (a +:+ String slash b) = split_slash a ++ split_slash b.
Proof.
  induction a as [|c a IH]; simpl.
  - done.
  - case_decide; [by rewrite IH|].
    rewrite IH. pose proof (split_slash_nonempty a).
    by destruct (split_slash a).
Qed.

Lemma walk_app base a b : walk base (a ++ b) = walk (walk base a) b.
Proof. apply foldl_app. Qed.

Lemma walk_segment_plain acc name :
  plain_name name → walk_segment acc name = acc ++ [name].
Proof.
  intros (_ & ? & ? & ?). unfold walk_segment.
  by rewrite !decide_False.
Qed.

Lemma path_basename_snoc p name : path_basename (p ++ [name]) = name.
Proof. unfold path_basename. apply last_last. Qed.

Lemma plain_name_relative name : plain_name name → is_absolute name = false.
Proof.
  intros (Hs & Hne & _). destruct name as [|c s]; [done|]. simpl in *.
  apply orb_false_iff in Hs as [Hc _]. done.
Qed.

(** A plain name resolves to the entry of that name in the working
    directory. *)
Lemma path_resolve_plain wd name :
  plain_name name → path_resolve wd name = wd ++ [name].
Proof.
  intros Hn. unfold path_resolve.
  rewrite plain_name_relative by done.
  rewrite split_slash_plain by apply Hn.
  simpl. by apply walk_segment_plain.
Qed.

(** However deep the directories named before it, the last name of the
    argument is the last name of the resolved path. *)
Lemma path_resolve_nested wd dir name :
  plain_name name →
  ∃ parent, path_resolve wd (dir +:+ String slash name) = parent ++ [name].
Proof.
  intros Hn. unfold path_resolve.
  rewrite split_slash_app, walk_app, (split_slash_plain name) by apply Hn.
  eexists. simpl. by apply walk_segment_plain.
Qed.

Lemma path_basename_resolve_nested wd dir name :
  plain_name name →
  path_basename (path_resolve wd (dir +:+ String slash name)) = name.
Proof.
  intros Hn. destruct (path_resolve_nested wd dir name Hn) as [parent ->].
  apply path_basename_snoc.
Qed.

(* ===================================================================== *)
(** * Package-manager resolution *)
(* ===================================================================== *)

Lemma detect_flagged options ua ua' :
  useNpm options || useYarn options || usePnpm options = true →
  detectPackageManager options ua = detectPackageManager options ua'.
Proof.
  unfold detectPackageManager.
  destruct (useNpm options), (useYarn options), (usePnpm options); done.
Qed.

Lemma detect_override pm ua :
  detectPackageManager (options_of_override (Some pm)) ua = pm.
Proof. by destruct pm. Qed.

(** C6. Resolution is a function of the override and of the user-agent
    variable alone, with this precedence: an explicit override is the
    result whatever the user agent says; without an override a user agent
    that names yarn gives yarn and one that names pnpm gives pnpm; with
    neither the result is npm. Override pnpm against a yarn user agent
    gives pnpm, and no override with no user agent gives npm. *)
Theorem detectPackageManager_precedence :
  (∀ pm ua, detectPackageManager (options_of_override (Some pm)) ua = pm) ∧
  (∀ options ua ua',
     useNpm options || useYarn options || usePnpm options = true →
     detectPackageManager options ua = detectPackageManager options ua') ∧
  (∀ ua, includes ua "yarn" = true →
     detectPackageManager (options_of_override None) (Some ua) = yarn) ∧
  (∀ ua, includes ua "yarn" = false → includes ua "pnpm" = true →
     detectPackageManager (options_of_override None) (Some ua) = pnpm) ∧
  (∀ ua, includes ua "yarn" = false → includes ua "pnpm" = false →
     detectPackageManager (options_of_override None) (Some ua) = npm) ∧
  detectPackageManager (options_of_override None) None = npm ∧
  detectPackageManager (options_of_override (Some pnpm))
    (Some "yarn/1.22.19 npm/? node/v20.11.0 linux x64") = pnpm.
Proof.
  split; [apply detect_override|].
  split; [apply detect_flagged|].
  unfold detectPackageManager; simpl.
  repeat split; intros; repeat match goal with H : _ = _ |- _ => rewrite H end; done.
Qed.

Lemma set_flag_spec options f :
  useNpm (set_flag options f) = useNpm options || bool_decide (f = UseNpm) ∧
  useYarn (set_flag options f) = useYarn options || bool_decide (f = UseYarn) ∧
  usePnpm (set_flag options f) = usePnpm options || bool_decide (f = UsePnpm).
Proof. destruct f; simpl; rewrite ?orb_true_r, ?orb_false_r; done. Qed.

Lemma foldl_set_flag seen options :
  useNpm (foldl set_flag options seen) = useNpm options || bool_decide (UseNpm ∈ seen) ∧
  useYarn (foldl set_flag options seen) = useYarn options || bool_decide (UseYarn ∈ seen) ∧
  usePnpm (foldl set_flag options seen) = usePnpm options || bool_decide (UsePnpm ∈ seen).
Proof.
  revert options. induction seen as [|f seen IH]; intros options.
  - cbn [foldl]. rewrite !bool_decide_false by apply not_elem_of_nil.
    by rewrite !orb_false_r.
  - cbn [foldl]. destruct (IH (set_flag options f)) as (-> & -> & ->).
    destruct (set_flag_spec options f) as (-> & -> & ->).
    rewrite <- !orb_assoc.
    split_and!; f_equal; apply eq_true_iff_eq;
      rewrite orb_true_iff, !bool_decide_eq_true, elem_of_cons;
      intuition congruence.
Qed.

(** Each option is set exactly when its flag is among those recognised. *)
Lemma options_of_flags_spec seen :
  useNpm (options_of_flags seen) = bool_decide (UseNpm ∈ seen) ∧
  useYarn (options_of_flags seen) = bool_decide (UseYarn ∈ seen) ∧
  usePnpm (options_of_flags seen) = bool_decide (UsePnpm ∈ seen).
Proof. apply (foldl_set_flag seen no_flags). Qed.

Lemma options_of_flags_eq seen :
  options_of_flags seen =
    {| useNpm := bool_decide (UseNpm ∈ seen);
       useYarn := bool_decide (UseYarn ∈ seen);
       usePnpm := bool_decide (UsePnpm ∈ seen) |}.
Proof.
  destruct (options_of_flags_spec seen) as (H1 & H2 & H3).
  destruct (options_of_flags seen); simpl in *; congruence.
Qed.

Lemma options_of_flags_perm seen seen' :
  seen ≡ₚ seen' → options_of_flags seen' = options_of_flags seen.
Proof.
  intros Hp. rewrite !options_of_flags_eq.
  f_equal; apply bool_decide_ext; by rewrite Hp.
Qed.

(** C10. When several selection flags are given, the npm flag wins over
    the yarn flag, which wins over the pnpm flag: on the options as parsed,
    and on the options commander builds from the flags it recognised, in
    whatever order and however often they stood on the command line. *)
Theorem flag_precedence (seen : list flag) (ua : option string) :
  (∀ options, useNpm options = true → detectPackageManager options ua = npm) ∧
  (∀ options, useNpm options = false → useYarn options = true →
     detectPackageManager options ua = yarn) ∧
  (∀ options, useNpm options = false → useYarn options = false →
     usePnpm options = true → detectPackageManager options ua = pnpm) ∧
  (UseNpm ∈ seen → detectPackageManager (options_of_flags seen) ua = npm) ∧
  (UseNpm ∉ seen → UseYarn ∈ seen →
     detectPackageManager (options_of_flags seen) ua = yarn) ∧
  (UseNpm ∉ seen → UseYarn ∉ seen → UsePnpm ∈ seen →
     detectPackageManager (options_of_flags seen) ua = pnpm) ∧
  (∀ seen', seen ≡ₚ seen' →
     detectPackageManager (options_of_flags seen') ua =
     detectPackageManager (options_of_flags seen) ua) ∧
  (∀ seen', (∀ f, f ∈ seen' ↔ f ∈ seen) →
     detectPackageManager (options_of_flags seen') ua =
     detectPackageManager (options_of_flags seen) ua).
Proof.
  rewrite !options_of_flags_eq. unfold detectPackageManager.
  split_and!.
  - by intros options ->.
  - by intros options -> ->.
  - by intros options -> -> ->.
  - intros H. cbn [useNpm]. by rewrite bool_decide_true.
  - intros H1 H2. cbn [useNpm useYarn].
    rewrite bool_decide_false by done. by rewrite bool_decide_true.
  - intros H1 H2 H3. cbn [useNpm useYarn usePnpm].
    rewrite !bool_decide_false by done. by rewrite bool_decide_true.
  - intros seen' Hp. by rewrite (options_of_flags_perm _ _ Hp), options_of_flags_eq.
  - intros seen' Hs. rewrite !options_of_flags_eq. cbn [useNpm useYarn usePnpm].
    by rewrite (bool_decide_ext _ _ (Hs UseNpm)), (bool_decide_ext _ _ (Hs UseYarn)),
      (bool_decide_ext _ _ (Hs UsePnpm)).
Qed.

(** All three flags at once, in two orders: npm. *)
Example flags_all_given :
  detectPackageManager (options_of_flags [UsePnpm; UseYarn; UseNpm]) None = npm ∧
  detectPackageManager (options_of_flags [UseNpm; UseYarn; UsePnpm]) None = npm ∧
  detectPackageManager (options_of_flags [UsePnpm; UseYarn; UsePnpm]) (Some "pnpm/9.0.0") = yarn.
Proof. by vm_compute. Qed.

(* ===================================================================== *)
(** * The name validator *)
(* ===================================================================== *)

Module NameExamples.

Definition url_friendly : string := "name can only contain URL-friendly characters".
Definition capitals : string := "name can no longer contain capital letters".

(** The name checker's answer for a name that meets every rule: both
    verdicts true, no list of errors and none of warnings. *)
Definition accepted (name : string) : NpmValidation :=
  {| validForNewPackages := true;
     validForOldPackages := true;
     nv_errors := None;
     nv_warnings := None |}.

(** The name checker's answer for a name with a space and capitals: one
    hard error and one warning. *)
Definition graded (name : string) : NpmValidation :=
  {| validForNewPackages := false;
     validForOldPackages := false;
     nv_errors := Some [url_friendly];
     nv_warnings := Some [capitals] |}.

(** An answer that grades both findings as hard errors. *)
Definition all_errors (name : string) : NpmValidation :=
  {| validForNewPackages := false;
     validForOldPackages := false;
     nv_errors := Some [url_friendly; capitals];
     nv_warnings := None |}.

End NameExamples.

(** The validator's result, whatever the name checker answers: not valid,
    with the errors followed by the warnings as its problems. *)
Lemma validateProjectName_run (validateNpmName : string -> NpmValidation)
    (name : string) :
  validateProjectName validateNpmName name =
    {| valid := false;
       problems := Some (or_empty (nv_errors (validateNpmName name)) ++
                         or_empty (nv_warnings (validateNpmName name))) |}.
Proof. reflexivity. Qed.

(** C9, where the code departs from it. The validator reads the member
    [valid] of the name checker's answer, which that answer does not have:
    for a name the checker accepts on both verdicts, without errors or
    warnings, the validator still reports not valid, with an empty list of
    problems. It reports valid for no name and no answer at all, and what
    it reports is one list, the errors followed by the warnings, in which
    the two gradings of the same findings are the same result. *)
Theorem validateProjectName_rejects_accepted_name :
  validForNewPackages (NameExamples.accepted "my-docs") = true ∧
  validForOldPackages (NameExamples.accepted "my-docs") = true ∧
  validateProjectName NameExamples.accepted "my-docs" =
    {| valid := false; problems := Some [] |} ∧
  (∀ validateNpmName name,
     valid (validateProjectName validateNpmName name) = false ∧
     problems (validateProjectName validateNpmName name) =
       Some (or_empty (nv_errors (validateNpmName name)) ++
             or_empty (nv_warnings (validateNpmName name)))) ∧
  validateProjectName NameExamples.graded "My Docs" =
    validateProjectName NameExamples.all_errors "My Docs" ∧
  nv_warnings (NameExamples.graded "My Docs") ≠
    nv_warnings (NameExamples.all_errors "My Docs").
Proof. split_and!; done. Qed.

(* ===================================================================== *)
(** * Reasoning about runs *)
(* ===================================================================== *)

Lemma bind_run {A B} (m : M A) (k : A -> M B) w :
  (m ≫= k) w =
  match m w with
  | (Ret a, w') => k a w'
  | (Exit c, w') => (Exit c, w')
  | (Throw e, w') => (Throw e, w')
  end.
Proof. reflexivity. Qed.

Lemma bind_ret {A B} (m : M A) (k : A -> M B) w a w1 :
  m w = (Ret a, w1) → (m ≫= k) w = k a w1.
Proof. intros H. by rewrite bind_run, H. Qed.

Lemma bind_exit {A B} (m : M A) (k : A -> M B) w c w1 :
  m w = (Exit c, w1) → (m ≫= k) w = (Exit c, w1).
Proof. intros H. by rewrite bind_run, H. Qed.

Lemma bind_throw {A B} (m : M A) (k : A -> M B) w e w1 :
  m w = (Throw e, w1) → (m ≫= k) w = (Throw e, w1).
Proof. intros H. by rewrite bind_run, H. Qed.

Lemma bind_ret_inv {A B} (m : M A) (k : A -> M B) w b w' :
  (m ≫= k) w = (Ret b, w') →
  ∃ a w1, m w = (Ret a, w1) ∧ k a w1 = (Ret b, w').
Proof.
  rewrite bind_run. destruct (m w) as [[a|c|e] w1]; [eauto|done..].
Qed.

Lemma bind_assoc {A B C} (m : M A) (k : A -> M B) (h : B -> M C) w :
  ((m ≫= k) ≫= h) w = (m ≫= (fun a => k a ≫= h)) w.
Proof.
  rewrite !bind_run. destruct (m w) as [[a|c|e] w1]; [|done..].
  by rewrite bind_run.
Qed.

(** [emits P m]: whatever the world, [m] only adds events to the trace,
    and each of them satisfies [P]. *)
Definition emits {A} (P : event -> Prop) (m : M A) : Prop :=
  ∀ w, ∃ evs, trace (m w).2 = trace w ++ evs ∧ Forall P evs.

Section Emits.

Context (P : event -> Prop).

Lemma emits_nothing {A} (m : M A) :
  (∀ w, trace (m w).2 = trace w) → emits P m.
Proof. intros H w. exists []. by rewrite H, app_nil_r. Qed.

Lemma emits_mret {A} (a : A) : emits P (mret a : M A).
Proof. by apply emits_nothing. Qed.

Lemma emits_skip : emits P skip.
Proof. by apply emits_nothing. Qed.

Lemma emits_throw {A} e : emits P (throw e : M A).
Proof. by apply emits_nothing. Qed.

Lemma emits_exit {A} c : emits P (process_exit c : M A).
Proof. by apply emits_nothing. Qed.

Lemma emits_get_files : emits P get_files.
Proof. by apply emits_nothing. Qed.

Lemma emits_put_files fs : emits P (put_files fs).
Proof. by apply emits_nothing. Qed.

Lemma emits_emit e : P e → emits P (emit e).
Proof. intros He w. exists [e]. split; [done|]. by constructor. Qed.

Lemma emits_bind {A B} (m : M A) (k : A -> M B) :
  emits P m → (∀ a, emits P (k a)) → emits P (m ≫= k).
Proof.
  intros Hm Hk w. rewrite bind_run.
  destruct (Hm w) as (evs & Ht & Hall).
  destruct (m w) as [[a|c|e] w1]; simpl in *; [|by eauto..].
  destruct (Hk a w1) as (evs' & Ht' & Hall').
  exists (evs ++ evs'). split; [|by apply Forall_app].
  by rewrite Ht', Ht, app_assoc.
Qed.

Lemma emits_try_catch {A} (m : M A) (h : error -> M A) :
  emits P m → (∀ e, emits P (h e)) → emits P (try_catch m h).
Proof.
  intros Hm Hh w. unfold try_catch.
  destruct (Hm w) as (evs & Ht & Hall).
  destruct (m w) as [[a|c|e] w1]; simpl in *; [by eauto..|].
  destruct (Hh e w1) as (evs' & Ht' & Hall').
  exists (evs ++ evs'). split; [|by apply Forall_app].
  by rewrite Ht', Ht, app_assoc.
Qed.

End Emits.

Lemma emits_weaken {A} (P Q : event -> Prop) (m : M A) :
  (∀ e, P e → Q e) → emits P m → emits Q m.
Proof.
  intros HPQ Hm w. destruct (Hm w) as (evs & Ht & Hall).
  exists evs. split; [done|]. eapply Forall_impl; eauto.
Qed.

(** One step of a proof that a computation emits only [P]-events: split a
    bind, a handler or a case distinction, or close a primitive. *)
Ltac emits_step :=
  match goal with
  | |- emits _ (mbind _ _) => apply emits_bind; [|intros ?]
  | |- emits _ (try_catch _ _) => apply emits_try_catch; [|intros ?]
  | |- emits _ (mret _) => apply emits_mret
  | |- emits _ skip => apply emits_skip
  | |- emits _ (throw _) => apply emits_throw
  | |- emits _ (process_exit _) => apply emits_exit
  | |- emits _ get_files => apply emits_get_files
  | |- emits _ (put_files _) => apply emits_put_files
  | |- emits _ (console_log _) => apply emits_emit
  | |- emits _ (console_error _) => apply emits_emit
  | |- emits _ (emit _) => apply emits_emit
  | |- emits _ (if ?b then _ else _) => destruct b
  | |- emits _ (match ?x with _ => _ end) => destruct x
  | |- emits _ (let _ := _ in _) => cbv zeta
  end.

Ltac emits_auto := repeat emits_step; try done.

(** Run the binds at the head of the goal, as far as they compute. *)
Ltac run_binds := repeat (rewrite bind_run; simpl).

Section EmitsStages.

Context (env : Env) (P : event -> Prop).

Lemma emits_existsSync p : emits P (existsSync p).
Proof. unfold existsSync. emits_auto. Qed.

Lemma emits_readFileSync p : emits P (readFileSync p).
Proof. unfold readFileSync. emits_auto. Qed.

Lemma emits_isFolderEmpty root : emits P (isFolderEmpty env root).
Proof. unfold isFolderEmpty. emits_auto. Qed.

Lemma emits_mkdirSync p : P (Mkdir p) → emits P (mkdirSync p).
Proof. intros. unfold mkdirSync. emits_auto. Qed.

Lemma emits_writeFileSync p data :
  P (WriteFile p data) → emits P (writeFileSync p data).
Proof. intros. unfold writeFileSync. emits_auto. Qed.

Lemma emits_renameSync src dst :
  P (Rename src dst) → emits P (renameSync src dst).
Proof. intros. unfold renameSync. emits_auto. Qed.

Lemma emits_copyRecursive src dst :
  P (CopyTree src dst) → emits P (copyRecursive src dst).
Proof. intros. unfold copyRecursive. emits_auto. Qed.

Lemma emits_execSync cmd dir :
  P (Spawn cmd dir) → emits P (execSync env cmd dir).
Proof. intros. unfold execSync. emits_auto. Qed.

End EmitsStages.

Section EmitsPipeline.

Context (env : Env) (P : event -> Prop).
Context (o : CreateProjectOptions).

Hypothesis P_log : ∀ line, P (Log line).
Hypothesis P_err : ∀ line, P (Err line).

Lemma emits_checkDirectory root :
  (∀ p, P (Mkdir p)) → emits P (checkDirectory env o root).
Proof.
  intros. unfold checkDirectory.
  apply emits_bind; [apply emits_existsSync|intros found].
  destruct found; [|by apply emits_mkdirSync].
  apply emits_bind; [emits_auto|intros _].
  apply emits_bind; [apply emits_isFolderEmpty|intros empty].
  emits_auto.
Qed.

Lemma emits_resolveTemplate : emits P (resolveTemplate env o).
Proof.
  unfold resolveTemplate. cbv zeta.
  apply emits_bind; [apply emits_existsSync|intros found].
  emits_auto.
Qed.

Lemma emits_materialize :
  (∀ p, P (Mkdir p)) → (∀ src dst, P (CopyTree src dst)) →
  emits P (materialize env o).
Proof.
  intros. unfold materialize. cbv zeta.
  apply emits_bind; [by apply emits_checkDirectory|intros _].
  do 2 (apply emits_bind; [by apply emits_emit|intros _]).
  apply emits_bind; [apply emits_resolveTemplate|intros templateDir].
  do 2 (apply emits_bind; [by apply emits_emit|intros _]).
  by apply emits_copyRecursive.
Qed.

Lemma emits_updatePackageJson root appName :
  (∀ p data, P (WriteFile p data)) → emits P (updatePackageJson env root appName).
Proof.
  intros. unfold updatePackageJson. cbv zeta.
  apply emits_bind; [apply emits_readFileSync|intros text].
  destruct (JSON_parse env text) as [parsed|]; [|emits_auto].
  destruct (assign_name parsed _); [|emits_auto].
  by apply emits_writeFileSync.
Qed.

Lemma emits_renameGitignore root :
  (∀ src dst, P (Rename src dst)) → emits P (renameGitignore root).
Proof.
  intros. unfold renameGitignore. cbv zeta.
  apply emits_bind; [apply emits_existsSync|intros found].
  destruct found; [by apply emits_renameSync|emits_auto].
Qed.

Lemma emits_installDependencies root :
  (∀ line dir, P (Spawn (CmdLine line) dir)) →
  emits P (installDependencies env o root).
Proof.
  intros. unfold installDependencies.
  destruct (skipInstall o); simpl; [emits_auto|].
  do 2 (apply emits_bind; [by apply emits_emit|intros _]).
  apply emits_bind; [|intros _; by apply emits_emit].
  apply emits_try_catch; [by apply emits_execSync|intros _].
  emits_auto.
Qed.

Lemma emits_tryGitInit root :
  (∀ dir, P (Spawn VcsInit dir)) → (∀ dir, P (Spawn VcsCommit dir)) →
  emits P (tryGitInit env root).
Proof.
  intros. unfold tryGitInit.
  apply emits_try_catch; [|intros _; emits_auto].
  apply emits_bind; [by apply emits_execSync|intros _].
  apply emits_bind; [by apply emits_execSync|intros _].
  emits_auto.
Qed.

Lemma emits_initializeGit root :
  (∀ dir, P (Spawn VcsInit dir)) → (∀ dir, P (Spawn VcsCommit dir)) →
  emits P (initializeGit env root).
Proof.
  intros. unfold initializeGit.
  apply emits_bind; [by apply emits_tryGitInit|intros done].
  emits_auto.
Qed.

Lemma emits_successMessage root appName :
  emits P (successMessage env o root appName).
Proof.
  unfold successMessage.
  cbv zeta.
  repeat match goal with
         | |- emits _ (mbind _ _) =>
             apply emits_bind; [by apply emits_emit|intros _]
         | |- emits _ (console_log _) => by apply emits_emit
         end.
Qed.

End EmitsPipeline.

(* ===================================================================== *)
(** * The file system: lookups after each operation *)
(* ===================================================================== *)

Lemma strip_prefix_app (d rel : path) : strip_prefix d (d ++ rel) = Some rel.
Proof. induction d as [|x d IH]; simpl; [done|]. by rewrite decide_True. Qed.

Lemma strip_prefix_Some (d k rel : path) : strip_prefix d k = Some rel ↔ k = d ++ rel.
Proof.
  split; [|intros ->; apply strip_prefix_app].
  revert k. induction d as [|x d IH]; intros k; simpl; [congruence|].
  destruct k as [|y k]; [done|]. case_decide; [|done].
  intros ->%IH. by subst.
Qed.

Lemma strip_prefix_sibling (d : path) (a b : string) (rel : path) :
  a ≠ b → strip_prefix (d ++ [a]) (d ++ [b] ++ rel) = None.
Proof.
  intros Hab. destruct (strip_prefix _ _) as [r|] eqn:E; [|done].
  apply strip_prefix_Some in E. rewrite <- app_assoc in E.
  apply app_inv_head in E. simpl in E. congruence.
Qed.

Lemma elem_of_readdir (fs : FS) (d : path) (name : string) :
  name ∈ readdir fs d ↔ is_Some (fs !! (d ++ [name])).
Proof.
  unfold readdir. rewrite list_elem_of_omap. split.
  - intros ([k n] & Hin & Hf). apply elem_of_map_to_list in Hin. simpl in Hf.
    destruct (strip_prefix d k) as [[|x [|??]]|] eqn:E; simplify_eq.
    apply strip_prefix_Some in E as ->. eauto.
  - intros [n Hn]. exists (d ++ [name], n). split.
    + by apply elem_of_map_to_list.
    + simpl. by rewrite strip_prefix_app.
Qed.

(** What [mkdirp] changes: nothing but missing directories on the way. *)
Lemma mkdirp_lookup (base segs : path) (fs fs' : FS) (p : path) :
  mkdirp base segs fs = Some fs' →
  fs' !! p = fs !! p ∨
  (fs !! p = None ∧ fs' !! p = Some Dir ∧ p `prefix_of` base ++ segs).
Proof.
  revert base fs. induction segs as [|s rest IH]; intros base fs; simpl.
  - intros [= ->]. by left.
  - replace (base ++ s :: rest) with ((base ++ [s]) ++ rest)
      by (by rewrite <- app_assoc).
    destruct (fs !! (base ++ [s])) as [[data|]|] eqn:E; [done|by apply IH|].
    intros [H|(H1 & H2 & H3)]%IH.
    + destruct (decide (p = base ++ [s])) as [->|Hne].
      * right. rewrite H, lookup_insert_eq. split_and!; [done..|].
        by apply prefix_app_r.
      * left. by rewrite H, lookup_insert_ne.
    + right. split_and!; [|done..].
      destruct (decide (p = base ++ [s])) as [->|Hne].
      * done.
      * by rewrite lookup_insert_ne in H1.
Qed.

(** When [mkdirp] succeeds the directory is there. *)
Lemma mkdirp_made (base segs : path) (fs fs' : FS) :
  mkdirp base segs fs = Some fs' → segs ≠ [] → fs' !! (base ++ segs) = Some Dir.
Proof.
  revert base fs. induction segs as [|s rest IH]; intros base fs; simpl; [done|].
  intros Hm _.
  replace (base ++ s :: rest) with ((base ++ [s]) ++ rest)
    by (by rewrite <- app_assoc).
  destruct rest as [|s' rest'].
  - rewrite app_nil_r. simpl in Hm.
    destruct (fs !! (base ++ [s])) as [[data|]|] eqn:E; simplify_eq; [done|].
    apply lookup_insert_eq.
  - destruct (fs !! (base ++ [s])) as [[data|]|]; [done|by eapply IH..].
Qed.

Lemma elem_of_graft_list (fs : FS) (src dst p : path) (n : node) :
  (p, n) ∈ omap (fun kn : path * node =>
                   (fun rel => (dst ++ rel, kn.2)) <$> strip_prefix src kn.1)
                (map_to_list fs) ↔
  ∃ rel, p = dst ++ rel ∧ fs !! (src ++ rel) = Some n.
Proof.
  rewrite list_elem_of_omap. split.
  - intros ([k m] & Hin & Hf). apply elem_of_map_to_list in Hin. simpl in Hf.
    destruct (strip_prefix src k) as [rel|] eqn:E; simplify_eq/=.
    apply strip_prefix_Some in E as ->. eauto.
  - intros (rel & -> & Hn). exists (src ++ rel, n). split.
    + by apply elem_of_map_to_list.
    + simpl. by rewrite strip_prefix_app.
Qed.

Lemma graft_lookup_Some (fs : FS) (src dst p : path) (n : node) :
  graft fs src dst !! p = Some n ↔
  ∃ rel, p = dst ++ rel ∧ fs !! (src ++ rel) = Some n.
Proof.
  unfold graft. rewrite <- elem_of_graft_list. split.
  - apply elem_of_list_to_map_2.
  - intros Hin. apply elem_of_list_to_map_1'; [|done].
    intros y Hy.
    apply elem_of_graft_list in Hin as (rel & -> & Hn).
    apply elem_of_graft_list in Hy as (rel' & Heq & Hn').
    apply app_inv_head in Heq as <-. congruence.
Qed.

Lemma graft_lookup (fs : FS) (src dst rel : path) :
  graft fs src dst !! (dst ++ rel) = fs !! (src ++ rel).
Proof.
  destruct (fs !! (src ++ rel)) as [n|] eqn:E.
  - apply graft_lookup_Some. eauto.
  - destruct (graft fs src dst !! (dst ++ rel)) as [n|] eqn:G; [|done].
    apply graft_lookup_Some in G as (rel' & Heq & Hn).
    apply app_inv_head in Heq as <-. congruence.
Qed.

Lemma graft_lookup_outside (fs : FS) (src dst p : path) :
  strip_prefix dst p = None → graft fs src dst !! p = None.
Proof.
  intros Hp. destruct (graft fs src dst !! p) as [n|] eqn:G; [|done].
  apply graft_lookup_Some in G as (rel & -> & _).
  by rewrite strip_prefix_app in Hp.
Qed.

Lemma prune_lookup_outside (fs : FS) (d p : path) :
  strip_prefix d p = None → prune fs d !! p = fs !! p.
Proof.
  intros Hp. unfold prune. rewrite map_lookup_filter.
  destruct (fs !! p) as [n|]; simpl; [|done].
  by rewrite option_guard_True.
Qed.

Lemma prune_lookup_inside (fs : FS) (d rel : path) : prune fs d !! (d ++ rel) = None.
Proof.
  unfold prune. apply map_lookup_filter_None. right. intros n _. simpl.
  by rewrite strip_prefix_app.
Qed.

(** The copy: below the destination the template's entries, relative
    path by relative path; where the template has none, and everywhere
    else, what was there. *)
Lemma copy_tree_lookup_inside (fs : FS) (src dst rel : path) :
  copy_tree fs src dst !! (dst ++ rel) =
  match fs !! (src ++ rel) with
  | Some n => Some n
  | None => fs !! (dst ++ rel)
  end.
Proof.
  unfold copy_tree. rewrite lookup_union, graft_lookup.
  destruct (fs !! (src ++ rel)), (fs !! (dst ++ rel)); done.
Qed.

Lemma copy_tree_lookup_outside (fs : FS) (src dst p : path) :
  strip_prefix dst p = None → copy_tree fs src dst !! p = fs !! p.
Proof.
  intros Hp. unfold copy_tree.
  by rewrite lookup_union_r by by apply graft_lookup_outside.
Qed.

(** The move, for two entries of one directory. *)
Lemma move_tree_lookup_target (fs : FS) (d : path) (a b : string) (rel : path) :
  a ≠ b →
  move_tree fs (d ++ [a]) (d ++ [b]) !! ((d ++ [b]) ++ rel) =
  fs !! ((d ++ [a]) ++ rel).
Proof.
  intros Hab. unfold move_tree.
  rewrite lookup_union, graft_lookup.
  rewrite prune_lookup_outside, prune_lookup_inside.
  - by destruct (fs !! _).
  - rewrite <- app_assoc. by apply strip_prefix_sibling.
Qed.

Lemma move_tree_lookup_source (fs : FS) (d : path) (a b : string) (rel : path) :
  a ≠ b → move_tree fs (d ++ [a]) (d ++ [b]) !! ((d ++ [a]) ++ rel) = None.
Proof.
  intros Hab. unfold move_tree. apply lookup_union_None_2.
  - apply graft_lookup_outside. rewrite <- app_assoc.
    apply strip_prefix_sibling. congruence.
  - apply prune_lookup_inside.
Qed.

Lemma move_tree_lookup_outside (fs : FS) (src dst p : path) :
  strip_prefix src p = None → strip_prefix dst p = None →
  move_tree fs src dst !! p = fs !! p.
Proof.
  intros Hs Hd. unfold move_tree.
  rewrite lookup_union_r by by apply graft_lookup_outside.
  by rewrite !prune_lookup_outside.
Qed.

(* ===================================================================== *)
(** * The stages, one by one *)
(* ===================================================================== *)

Lemma forallb_false_elem {A} (f : A -> bool) (l : list A) (x : A) :
  x ∈ l → f x = false → forallb f l = false.
Proof.
  intros Hin Hx. destruct (forallb f l) eqn:E; [|done].
  rewrite forallb_forall in E. rewrite <- Hx. symmetry. apply E.
  by apply list_elem_of_In.
Qed.

Section Stages.

Context (env : Env) (o : CreateProjectOptions).

Lemma existsSync_run (p : path) fs tr :
  existsSync p {| files := fs; trace := tr |} =
  (Ret (bool_decide (is_Some (fs !! p))), {| files := fs; trace := tr |}).
Proof. reflexivity. Qed.

(** An existing destination is either refused, with one line on the
    error stream, or passed as it is. *)
Lemma checkDirectory_existing root fs tr :
  is_Some (fs !! root) →
  (∃ line, checkDirectory env o root {| files := fs; trace := tr |} =
           (Exit 1, {| files := fs; trace := tr ++ [Err line] |})) ∨
  (checkDirectory env o root {| files := fs; trace := tr |} =
     (Ret tt, {| files := fs; trace := tr |}) ∧
   isWriteable env root = true ∧
   forallb (benign env) (readdir fs root) = true).
Proof.
  intros Hex. unfold checkDirectory.
  rewrite bind_run, existsSync_run, bool_decide_true by done.
  destruct (isWriteable env root) eqn:Hw; simpl.
  - unfold isFolderEmpty. run_binds.
    destruct (forallb (benign env) (readdir fs root)) eqn:Hb; simpl.
    + by right.
    + left. by eexists.
  - left. by eexists.
Qed.

(** One entry outside the allow-list and the destination is refused. *)
Lemma checkDirectory_occupied root fs tr name :
  is_Some (fs !! root) →
  is_Some (fs !! (root ++ [name])) → benign env name = false →
  ∃ line, checkDirectory env o root {| files := fs; trace := tr |} =
          (Exit 1, {| files := fs; trace := tr ++ [Err line] |}).
Proof.
  intros Hex Hentry Hbad.
  destruct (checkDirectory_existing root fs tr Hex) as [?|(_ & _ & Hall)]; [done|].
  rewrite (forallb_false_elem _ _ name) in Hall; [done| |done].
  by apply elem_of_readdir.
Qed.

(** A missing destination is created, parents included. *)
Lemma checkDirectory_missing root fs tr :
  fs !! root = None →
  checkDirectory env o root {| files := fs; trace := tr |} =
  match mkdirp [] root fs with
  | Some fs' => (Ret tt, {| files := fs'; trace := tr ++ [Mkdir root] |})
  | None => (Throw (ENOTDIR root), {| files := fs; trace := tr ++ [Mkdir root] |})
  end.
Proof.
  intros Hno. unfold checkDirectory.
  rewrite bind_run, existsSync_run, bool_decide_false by (rewrite Hno; by intros [??]).
  unfold mkdirSync. run_binds.
  by destruct (mkdirp [] root fs).
Qed.

Lemma resolveTemplate_run fs tr :
  resolveTemplate env o {| files := fs; trace := tr |} =
  match fs !! template_dir env o with
  | Some _ => (Ret (template_dir env o), {| files := fs; trace := tr |})
  | None => (Exit 1, {| files := fs;
                        trace := tr ++ [Err ("Template " +:+ template o +:+ " not found.")] |})
  end.
Proof.
  unfold resolveTemplate. cbv zeta. fold (template_dir env o).
  rewrite bind_run, existsSync_run.
  destruct (fs !! template_dir env o) as [n|] eqn:E.
  - by rewrite bool_decide_true by done.
  - by rewrite bool_decide_false by by intros [??].
Qed.

End Stages.

(* ===================================================================== *)
(** * An occupied destination *)
(* ===================================================================== *)

(** C1. When the destination exists and holds an entry outside the
    allow-list, the run ends with exit code 1; the file system is the one
    it found, and the whole trace is one line on the error stream: no
    directory made, no copy, no write, no rename, no child process. *)
Theorem createProject_refuses_occupied (env : Env) (o : CreateProjectOptions)
    (fs : FS) (name : string) :
  is_Some (fs !! destination env o) →
  is_Some (fs !! (destination env o ++ [name])) →
  benign env name = false →
  ∃ line, run (createProject env o) fs =
          (Exit 1, {| files := fs; trace := [Err line] |}).
Proof.
  intros Hex Hentry Hbad.
  destruct (checkDirectory_occupied env o _ fs [] name Hex Hentry Hbad) as [line Hc].
  exists line. unfold run, createProject, scaffold, materialize. cbv zeta.
  do 3 apply bind_exit. exact Hc.
Qed.

(* ===================================================================== *)
(** * An unknown template *)
(* ===================================================================== *)







(* ===================================================================== *)
(** * The later stages as equations *)
(* ===================================================================== *)

(** The lines of the success message, in order. *)
Definition success_lines (env : Env) (o : CreateProjectOptions) (root : path)
    (appName : string) : list string :=
  let command := getPackageManagerCommand env (packageManager o) in
  ["Success!" +:+ " Created " +:+ appName +:+ " at " +:+ path_to_string root;
   "";
   "Inside that directory, you can run several commands:";
   "";
   "  " +:+ pmc_run command "dev";
   "    Starts the development server.";
   "";
   "  " +:+ pmc_run command "build";
   "    Builds the app for production.";
   "";
   "  " +:+ pmc_run command "start";
   "    Runs the built app in production mode.";
   "";
   "We suggest that you begin by typing:";
   "";
   "  cd" +:+ " " +:+ projectName o;
   "  " +:+ pmc_run command "dev";
   ""].

(** What repository initialisation adds to the trace, by how its two
    children fare: the spawn of each child that is started, and the two
    lines of the announcement when both end well. *)
Definition vcs_events (c : command -> path -> FS -> bool * FS) (root : path)
    (fs : FS) : list event :=
  let r1 := c VcsInit root fs in
  if r1.1 then
    let r2 := c VcsCommit root r1.2 in
    if r2.1 then [Spawn VcsInit root; Spawn VcsCommit root;
                  Log "Initialized a git repository."; Log ""]
    else [Spawn VcsInit root; Spawn VcsCommit root]
  else [Spawn VcsInit root].

(** The file system the children of repository initialisation leave. *)
Definition vcs_files (c : command -> path -> FS -> bool * FS) (root : path)
    (fs : FS) : FS :=
  let r1 := c VcsInit root fs in
  if r1.1 then (c VcsCommit root r1.2).2 else r1.2.

(** Lines 294 to 297 of createProject, with any helper in the place of
    [tryGitInit]. *)
Definition initializeGit_with (helper : path -> M bool) (root : path) : M unit :=
  done ← helper root;
  if (done : bool) then console_log "Initialized a git repository.";; console_log ""
  else skip.

(** A computation that only prints and returns. *)
Definition logs_only (m : M unit) : Prop :=
  ∀ w, ∃ lines,
    m w = (Ret tt, {| files := files w; trace := trace w ++ (Log <$> lines) |}).

Lemma logs_only_console_log line : logs_only (console_log line).
Proof. intros w. by exists [line]. Qed.

Lemma logs_only_seq (m k : M unit) :
  logs_only m → logs_only k → logs_only (m;; k).
Proof.
  intros Hm Hk w. destruct (Hm w) as [l1 H1].
  rewrite (bind_ret _ _ _ _ _ H1).
  destruct (Hk {| files := files w; trace := trace w ++ (Log <$> l1) |}) as [l2 H2].
  exists (l1 ++ l2). rewrite H2. simpl. by rewrite fmap_app, app_assoc.
Qed.

Section LaterStages.

Context (env : Env) (o : CreateProjectOptions).

Lemma successMessage_logs root appName :
  logs_only (successMessage env o root appName).
Proof.
  unfold successMessage. cbv zeta.
  repeat match goal with
         | |- logs_only (mbind _ _) =>
             apply logs_only_seq; [apply logs_only_console_log|]
         | |- logs_only (console_log _) => apply logs_only_console_log
         end.
Qed.

Definition manifest_text (doc : json) : string :=
  JSON_stringify env doc 2 +:+ String (ascii_of_nat 10) "".

Lemma updatePackageJson_run root appName fs tr :
  updatePackageJson env root appName {| files := fs; trace := tr |} =
  let manifest := root ++ ["package.json"] in
  match fs !! manifest with
  | Some (File text) =>
      match JSON_parse env text with
      | Some parsed =>
          match assign_name parsed (JString appName) with
          | Some doc =>
              (Ret tt, {| files := <[manifest := File (manifest_text doc)]> fs;
                          trace := tr ++ [WriteFile manifest (manifest_text doc)] |})
          | None => (Throw TypeError, {| files := fs; trace := tr |})
          end
      | None => (Throw SyntaxError, {| files := fs; trace := tr |})
      end
  | Some Dir => (Throw (EISDIR manifest), {| files := fs; trace := tr |})
  | None => (Throw (ENOENT manifest), {| files := fs; trace := tr |})
  end.
Proof.
  unfold updatePackageJson, readFileSync, manifest_text. cbv zeta.
  run_binds.
  destruct (fs !! (root ++ ["package.json"])) as [[text|]|] eqn:E; simpl; [|done..].
  destruct (JSON_parse env text) as [parsed|]; [|done].
  destruct (assign_name parsed (JString appName)) as [doc|]; [|done].
  unfold writeFileSync. run_binds. by rewrite E.
Qed.

Lemma renameSync_run (src dst : path) (fs : FS) tr :
  renameSync src dst {| files := fs; trace := tr |} =
  match rename_error fs src dst with
  | Some e => (Throw e, {| files := fs; trace := tr ++ [Rename src dst] |})
  | None =>
      (Ret tt, {| files := if decide (src = dst) then fs else move_tree fs src dst;
                  trace := tr ++ [Rename src dst] |})
  end.
Proof. unfold renameSync. run_binds. by destruct (rename_error fs src dst). Qed.

Lemma gitignore_names_differ (root : path) :
  root ++ ["gitignore"] ≠ root ++ [".gitignore"].
Proof. intros H. by apply app_inv_head in H. Qed.

Lemma renameGitignore_run root fs tr :
  renameGitignore root {| files := fs; trace := tr |} =
  let gitignorePath := root ++ ["gitignore"] in
  let dotted := root ++ [".gitignore"] in
  match fs !! gitignorePath with
  | Some _ =>
      match rename_error fs gitignorePath dotted with
      | Some e => (Throw e, {| files := fs;
                               trace := tr ++ [Rename gitignorePath dotted] |})
      | None => (Ret tt, {| files := move_tree fs gitignorePath dotted;
                            trace := tr ++ [Rename gitignorePath dotted] |})
      end
  | None => (Ret tt, {| files := fs; trace := tr |})
  end.
Proof.
  unfold renameGitignore. cbv zeta. rewrite bind_run, existsSync_run.
  destruct (fs !! (root ++ ["gitignore"])) as [n|] eqn:E.
  - rewrite bool_decide_true by done. rewrite renameSync_run.
    by rewrite (decide_False (P := _ = _)) by apply gitignore_names_differ.
  - by rewrite bool_decide_false by by intros [??].
Qed.

Lemma installDependencies_run root fs tr :
  installDependencies env o root {| files := fs; trace := tr |} =
  if skipInstall o then (Ret tt, {| files := fs; trace := tr |})
  else
    let cmd := CmdLine (pmc_install (getPackageManagerCommand env (packageManager o))) in
    let r := child env cmd root fs in
    if r.1 then
      (Ret tt, {| files := r.2;
                  trace := tr ++ [Log "Installing dependencies..."; Log "";
                                  Spawn cmd root; Log ""] |})
    else
      (Exit 1, {| files := r.2;
                  trace := tr ++ [Log "Installing dependencies..."; Log "";
                                  Spawn cmd root;
                                  Err "Failed to install dependencies."] |}).
Proof.
  unfold installDependencies. destruct (skipInstall o); simpl; [done|].
  run_binds. unfold try_catch, execSync. run_binds.
  destruct (child env _ root fs) as [[] fs']; simpl; run_binds;
    unfold console_log, emit; simpl; by rewrite <- ?app_assoc.
Qed.

Lemma initializeGit_run root fs tr :
  initializeGit env root {| files := fs; trace := tr |} =
  let r1 := child env VcsInit root fs in
  if r1.1 then
    let r2 := child env VcsCommit root r1.2 in
    if r2.1 then
      (Ret tt, {| files := r2.2;
                  trace := tr ++ [Spawn VcsInit root; Spawn VcsCommit root;
                                  Log "Initialized a git repository."; Log ""] |})
    else
      (Ret tt, {| files := r2.2;
                  trace := tr ++ [Spawn VcsInit root; Spawn VcsCommit root] |})
  else (Ret tt, {| files := r1.2; trace := tr ++ [Spawn VcsInit root] |}).
Proof.
  unfold initializeGit, tryGitInit, try_catch, execSync. run_binds.
  destruct (child env VcsInit root fs) as [[] fs1]; simpl; [|done].
  run_binds.
  destruct (child env VcsCommit root fs1) as [[] fs2]; simpl; run_binds;
    unfold console_log, emit; simpl; by rewrite <- ?app_assoc.
Qed.

End LaterStages.

Lemma successMessage_run (env : Env) (o : CreateProjectOptions) root appName fs tr :
  successMessage env o root appName {| files := fs; trace := tr |} =
  (Ret tt, {| files := fs;
              trace := tr ++ (Log <$> success_lines env o root appName) |}).
Proof.
  unfold successMessage, success_lines. cbv zeta.
  repeat (rewrite bind_run; unfold console_log at 1, emit; cbn [files trace]).
  unfold console_log, emit. cbn [files trace fmap list_fmap].
  by rewrite <- !app_assoc.
Qed.

(** The two last stages always return, with the trace longer by the
    events of repository initialisation and the success message. *)
Lemma finish_trace (env : Env) (o : CreateProjectOptions) root appName fs tr :
  (initializeGit env root;; successMessage env o root appName)
    {| files := fs; trace := tr |} =
  (Ret tt, {| files := vcs_files (child env) root fs;
              trace := tr ++ vcs_events (child env) root fs ++
                       (Log <$> success_lines env o root appName) |}).
Proof.
  rewrite bind_run, initializeGit_run. unfold vcs_files, vcs_events. cbv zeta.
  destruct (child env VcsInit root fs) as [[] fs1]; cbn [fst snd].
  - destruct (child env VcsCommit root fs1) as [[] fs2]; cbn [fst snd];
      by rewrite successMessage_run, <- app_assoc.
  - by rewrite successMessage_run, <- app_assoc.
Qed.

(* ===================================================================== *)
(** * The manifest *)
(* ===================================================================== *)

Lemma get_member_set_same key v members :
  get_member key (set_member key v members) = Some v.
Proof.
  induction members as [|[k x] rest IH]; simpl.
  - by rewrite decide_True.
  - case_decide; simpl; [by rewrite decide_True|by rewrite decide_False].
Qed.

Lemma get_member_set_other key other v members :
  other ≠ key →
  get_member other (set_member key v members) = get_member other members.
Proof.
  intros Hne. induction members as [|[k x] rest IH]; simpl.
  - by rewrite decide_False.
  - case_decide as Hk; simpl.
    + subst. by rewrite !decide_False by done.
    + case_decide; [done|apply IH].
Qed.

Lemma set_member_keys_in key v members :
  key ∈ members.*1 → (set_member key v members).*1 = members.*1.
Proof.
  induction members as [|[k x] rest IH]; simpl.
  - by intros ?%elem_of_nil.
  - intros Hin. case_decide as Hk; simpl; [by subst|].
    f_equal. apply IH. apply elem_of_cons in Hin as [?|?]; [congruence|done].
Qed.

Lemma set_member_keys_out key v members :
  key ∉ members.*1 → (set_member key v members).*1 = members.*1 ++ [key].
Proof.
  induction members as [|[k x] rest IH]; simpl; [done|].
  intros Hout. apply not_elem_of_cons in Hout as [Hne Hout].
  rewrite decide_False by congruence. simpl. f_equal. by apply IH.
Qed.

(** The keys after an assignment: in the order they had, with the new key
    last when it was not among them. *)
Lemma set_member_keys key v members :
  (set_member key v members).*1 =
  if decide (key ∈ members.*1) then members.*1 else members.*1 ++ [key].
Proof.
  case_decide; [by apply set_member_keys_in|by apply set_member_keys_out].
Qed.

(** Every member under another key stays at its position, value and all. *)
Lemma set_member_keeps key v members (i : nat) k x :
  k ≠ key → members !! i = Some (k, x) → set_member key v members !! i = Some (k, x).
Proof.
  intros Hne. revert i. induction members as [|[k' x'] rest IH]; intros i; simpl.
  - done.
  - case_decide as Hk.
    + destruct i; simpl; [|done]. intros [= -> ->]. congruence.
    + destruct i; simpl; [done|]. apply IH.
Qed.

Lemma written_app tr1 tr2 : written (tr1 ++ tr2) = written tr1 ++ written tr2.
Proof. unfold written. apply omap_app. Qed.

Lemma written_none evs :
  Forall (fun e => is_write e = false) evs → written evs = [].
Proof.
  induction 1 as [|e evs He _ IH]; [done|].
  unfold written in *. destruct e; simpl in *; done.
Qed.

Lemma spawned_app tr1 tr2 : spawned (tr1 ++ tr2) = spawned tr1 ++ spawned tr2.
Proof. unfold spawned. apply omap_app. Qed.

Lemma errors_app tr1 tr2 : errors (tr1 ++ tr2) = errors tr1 ++ errors tr2.
Proof. unfold errors. apply omap_app. Qed.

(** What a run relies on once [materialize] has returned. *)
Lemma materialize_ret (env : Env) (o : CreateProjectOptions) fs tr w1 :
  materialize env o {| files := fs; trace := tr |} = (Ret tt, w1) →
  ∃ fs0,
    prepared fs (destination env o) = Some fs0 ∧
    is_Some (fs0 !! template_dir env o) ∧
    files w1 = copy_tree fs0 (template_dir env o) (destination env o).
Proof.
  unfold materialize, prepared. cbv zeta. fold (destination env o).
  destruct (fs !! destination env o) as [n|] eqn:Hroot.
  - destruct (checkDirectory_existing env o (destination env o) fs tr)
      as [[line Hc]|(Hc & _)]; [done|..].
    + by rewrite (bind_exit _ _ _ _ _ Hc).
    + rewrite (bind_ret _ _ _ _ _ Hc). run_binds.
      rewrite resolveTemplate_run.
      destruct (fs !! template_dir env o) as [t|] eqn:Ht; [|done].
      unfold copyRecursive. run_binds. intros [= <-]. eauto.
  - rewrite bind_run, checkDirectory_missing by done.
    destruct (mkdirp [] (destination env o) fs) as [fs0|]; [|done]. run_binds.
    rewrite resolveTemplate_run.
    destruct (fs0 !! template_dir env o) as [t|] eqn:Ht; [|done].
    unfold copyRecursive. run_binds. intros [= <-]. eauto.
Qed.

Lemma emits_run {A} (P : event -> Prop) (m : M A) w r w' :
  emits P m → m w = (r, w') → ∃ evs, trace w' = trace w ++ evs ∧ Forall P evs.
Proof. intros Hm Hr. specialize (Hm w). by rewrite Hr in Hm. Qed.

(** After the scaffold nothing writes a file. *)
Lemma emits_after_scaffold (env : Env) (o : CreateProjectOptions) root appName :
  emits (fun e => is_write e = false)
    (installDependencies env o root;;
     initializeGit env root;;
     successMessage env o root appName).
Proof.
  apply emits_bind; [by apply emits_installDependencies|intros _].
  apply emits_bind; [by apply emits_initializeGit|intros _].
  by apply emits_successMessage.
Qed.

(** The manifest is no part of the ignore file, under either name. *)
Lemma manifest_outside_gitignore (root : path) :
  strip_prefix (root ++ ["gitignore"]) (root ++ ["package.json"]) = None ∧
  strip_prefix (root ++ [".gitignore"]) (root ++ ["package.json"]) = None.
Proof.
  split.
  - by apply (strip_prefix_sibling root "gitignore" "package.json" []).
  - by apply (strip_prefix_sibling root ".gitignore" "package.json" []).
Qed.

(** C5, as the code has it. In every run that ends well the manifest is
    read from the copied tree and parsed; the parsed value is an object
    or an array; it is assigned the last name of the resolved destination
    as its [name] and written back once, as
    [JSON.stringify(doc, null, 2)] followed by a newline. That text is
    what the manifest holds when the scaffold is done, and at the end of
    the run if no child process touches the manifest. When the parsed
    value is an object, its [name] is the new one, the keys keep the
    order the parsed object has them in (a missing [name] goes last) and
    every member under another key keeps its place and its value. When
    it is an array, the assignment is lost and the array is written back
    as it was parsed, without a name. The name is the last segment of the
    path given, however many directories precede it. *)
Theorem manifest_patched (env : Env) (o : CreateProjectOptions) (fs : FS) (w' : World) :
  run (createProject env o) fs = (Ret tt, w') →
  let root := destination env o in
  let appName := path_basename root in
  let manifest := root ++ ["package.json"] in
  (∃ fs0 text parsed doc w2,
     prepared fs root = Some fs0 ∧
     copy_tree fs0 (template_dir env o) root !! manifest = Some (File text) ∧
     JSON_parse env text = Some parsed ∧
     assign_name parsed (JString appName) = Some doc ∧
     written (trace w') =
       [(manifest, JSON_stringify env doc 2 +:+ String (ascii_of_nat 10) "")] ∧
     run (scaffold env o) fs = (Ret tt, w2) ∧
     files w2 !! manifest =
       Some (File (JSON_stringify env doc 2 +:+ String (ascii_of_nat 10) "")) ∧
     ((∀ cmd dir fs1, (child env cmd dir fs1).2 !! manifest = fs1 !! manifest) →
        files w' !! manifest =
          Some (File (JSON_stringify env doc 2 +:+ String (ascii_of_nat 10) ""))) ∧
     ((∃ members, parsed = JObject members) ∨ (∃ items, parsed = JArray items)) ∧
     (∀ members, parsed = JObject members →
        ∃ members', doc = JObject members' ∧
          get_member "name" members' = Some (JString appName) ∧
          members'.*1 = (if decide ("name" ∈ members.*1) then members.*1
                         else members.*1 ++ ["name"]) ∧
          (∀ key, key ≠ "name" → get_member key members' = get_member key members) ∧
          (∀ (i : nat) key x, key ≠ "name" → members !! i = Some (key, x) →
                              members' !! i = Some (key, x))) ∧
     (∀ items, parsed = JArray items → doc = JArray items)) ∧
  (plain_name (projectName o) → appName = projectName o) ∧
  (∀ dir name, plain_name name → projectName o = dir +:+ String slash name →
               appName = name).
Proof.
  intros Hrun root appName manifest. split_and!.
  - unfold run, createProject in Hrun. cbv zeta in Hrun.
    fold (destination env o) in Hrun. fold root in Hrun. fold appName in Hrun.
    apply bind_ret_inv in Hrun as ([] & w3 & Hscaf & Hrest).
    pose proof Hscaf as Hscaf'.
    unfold scaffold in Hscaf. cbv zeta in Hscaf.
    fold (destination env o) in Hscaf. fold root in Hscaf. fold appName in Hscaf.
    apply bind_ret_inv in Hscaf as ([] & w1 & Hmat & Hpatch).
    apply bind_ret_inv in Hpatch as ([] & w2 & Hupd & Hren).
    destruct (materialize_ret _ _ _ _ _ Hmat) as (fs0 & Hprep & _ & Hfiles).
    destruct (emits_run (fun e => is_write e = false) _ _ _ _
                (emits_materialize env _ o (fun _ => eq_refl) (fun _ => eq_refl)
                   (fun _ => eq_refl) (fun _ _ => eq_refl)) Hmat)
      as (evs1 & Ht1 & Hevs1).
    destruct (emits_run (fun e => is_write e = false) _ _ _ _
                (emits_renameGitignore _ root (fun _ _ => eq_refl)) Hren)
      as (evs3 & Ht3 & Hevs3).
    destruct (emits_run _ _ _ _ _ (emits_after_scaffold env o root appName) Hrest)
      as (evs4 & Ht4 & Hevs4).
    destruct w1 as [fs1 tr1]. simpl in Hfiles, Ht1. subst fs1 tr1.
    rewrite updatePackageJson_run in Hupd. cbv zeta in Hupd. fold manifest in Hupd.
    destruct (copy_tree fs0 (template_dir env o) (destination env o) !! manifest)
      as [[text|]|] eqn:Hread; [|done..].
    destruct (JSON_parse env text) as [parsed|] eqn:Hparse; [|done].
    destruct (assign_name parsed (JString appName)) as [doc|] eqn:Hassign; [|done].
    injection Hupd as <-. simpl in Ht3.
    assert (files w3 !! manifest = Some (File (manifest_text env doc))) as Hw3.
    { rewrite renameGitignore_run in Hren. cbv zeta in Hren.
      destruct (manifest_outside_gitignore root) as [Hg Hd].
      destruct (_ !! (root ++ ["gitignore"])).
      - destruct (rename_error _ _ _); [done|]. injection Hren as <-. simpl.
        fold manifest in Hg, Hd.
        rewrite (move_tree_lookup_outside _ _ _ _ Hg Hd). apply lookup_insert_eq.
      - injection Hren as <-. simpl. apply lookup_insert_eq. }
    exists fs0, text, parsed, doc, w3. split_and!; [done..| | |done| | | |].
    + rewrite Ht4, Ht3, !written_app.
      rewrite (written_none evs1), (written_none evs3), (written_none evs4) by done.
      reflexivity.
    + exact Hscaf'.
    + intros Hchild. destruct w3 as [fs3 tr3]. simpl in Hw3.
      rewrite bind_run, installDependencies_run in Hrest.
      assert (∀ fs1 tr1,
                fs1 !! manifest = Some (File (manifest_text env doc)) →
                (initializeGit env root;; successMessage env o root appName)
                  {| files := fs1; trace := tr1 |} = (Ret tt, w') →
                files w' !! manifest = Some (File (manifest_text env doc))) as Hfin.
      { intros fs1 tr1 H1. rewrite finish_trace. intros [= <-]. simpl.
        unfold vcs_files. cbv zeta.
        destruct (child env VcsInit root fs1).1; rewrite !Hchild; exact H1. }
      destruct (skipInstall o); [by apply (Hfin fs3 tr3)|].
      cbv zeta in Hrest. destruct (child env _ root fs3) as [[] fs4] eqn:Hc;
        simpl in Hrest; [|done].
      eapply (Hfin fs4); [|exact Hrest].
      pose proof (Hchild (CmdLine (pmc_install
                    (getPackageManagerCommand env (packageManager o)))) root fs3) as H4.
      rewrite Hc in H4. simpl in H4. by rewrite H4.
    + destruct parsed; simplify_eq/=; eauto.
    + intros members ->. simpl in Hassign. injection Hassign as <-.
      eexists. split_and!; [done|..].
      * apply get_member_set_same.
      * apply set_member_keys.
      * intros key Hkey. by apply get_member_set_other.
      * intros i key x Hkey. by apply set_member_keeps.
    + intros items ->. simpl in Hassign. by injection Hassign as <-.
  - intros Hplain. unfold appName, root, destination.
    rewrite path_resolve_plain by done. apply path_basename_snoc.
  - intros dir name Hname Heq. unfold appName, root, destination. rewrite Heq.
    by apply path_basename_resolve_nested.
Qed.

(* ===================================================================== *)
(** * The ignore file *)
(* ===================================================================== *)

(** The manifest rewrite either returns or throws with the world as it
    found it. *)
Lemma updatePackageJson_throws (env : Env) root appName w e w1 :
  updatePackageJson env root appName w = (Throw e, w1) → w1 = w.
Proof.
  destruct w as [fs tr]. rewrite updatePackageJson_run. cbv zeta.
  repeat case_match; congruence.
Qed.

Lemma updatePackageJson_files (env : Env) root appName w w1 :
  updatePackageJson env root appName w = (Ret tt, w1) →
  ∃ text, files w1 = <[root ++ ["package.json"] := File text]> (files w).
Proof.
  destruct w as [fs tr]. rewrite updatePackageJson_run. cbv zeta.
  repeat case_match; try congruence. intros [= <-]. eauto.
Qed.

(** C8. Take a run in which the copy has returned. If the manifest rewrite
    throws, the run ends there and nothing is renamed. If it returns, the
    run looks for the entry [gitignore] of the destination, which the
    rewrite has not touched. When the entry is absent the step changes
    nothing, adds nothing to the trace and the run goes on. When it is
    there and the rename goes through, it moves to [.gitignore] with
    nothing else touched, and the run goes on from the world the step
    leaves. When the rename fails (for a file: exactly when [.gitignore]
    is a directory), the run ends with that exception and the tree as it
    was. *)
Theorem gitignore_renamed (env : Env) (o : CreateProjectOptions) (fs : FS)
    (w0 : World) :
  let root := destination env o in
  let appName := path_basename root in
  let gitignorePath := root ++ ["gitignore"] in
  let dotted := root ++ [".gitignore"] in
  let rest := (installDependencies env o root;;
               initializeGit env root;;
               successMessage env o root appName) in
  run (materialize env o) fs = (Ret tt, w0) →
  (∀ e w1, updatePackageJson env root appName w0 = (Throw e, w1) →
     w1 = w0 ∧ run (createProject env o) fs = (Throw e, w0)) ∧
  (∀ w1, updatePackageJson env root appName w0 = (Ret tt, w1) →
     (∀ rel, files w1 !! (gitignorePath ++ rel) = files w0 !! (gitignorePath ++ rel)) ∧
     (files w1 !! gitignorePath = None →
        renameGitignore root w1 = (Ret tt, w1) ∧
        run (createProject env o) fs = rest w1) ∧
     (is_Some (files w1 !! gitignorePath) →
      rename_error (files w1) gitignorePath dotted = None →
        ∃ w2, renameGitignore root w1 = (Ret tt, w2) ∧
          run (createProject env o) fs = rest w2 ∧
          trace w2 = trace w1 ++ [Rename gitignorePath dotted] ∧
          (∀ rel, files w2 !! (dotted ++ rel) = files w1 !! (gitignorePath ++ rel)) ∧
          (∀ rel, files w2 !! (gitignorePath ++ rel) = None) ∧
          (∀ p, strip_prefix gitignorePath p = None → strip_prefix dotted p = None →
                files w2 !! p = files w1 !! p)) ∧
     (∀ e, is_Some (files w1 !! gitignorePath) →
        rename_error (files w1) gitignorePath dotted = Some e →
        let w2 := {| files := files w1;
                     trace := trace w1 ++ [Rename gitignorePath dotted] |} in
        renameGitignore root w1 = (Throw e, w2) ∧
        run (createProject env o) fs = (Throw e, w2)) ∧
     (∀ data, files w1 !! gitignorePath = Some (File data) →
        rename_error (files w1) gitignorePath dotted =
          match files w1 !! dotted with
          | Some Dir => Some (EISDIR dotted)
          | _ => None
          end)).
Proof.
  intros root appName gitignorePath dotted rest Hmat.
  assert (∀ w1, updatePackageJson env root appName w0 = (Ret tt, w1) →
            run (createProject env o) fs =
              match renameGitignore root w1 with
              | (Ret _, w2) => rest w2
              | (Exit c, w2) => (Exit c, w2)
              | (Throw e, w2) => (Throw e, w2)
              end) as Hgo.
  { intros w1 Hupd. unfold run, createProject, scaffold. cbv zeta.
    fold (destination env o). fold root. fold appName.
    rewrite bind_run, bind_run. unfold run in Hmat. rewrite Hmat.
    rewrite bind_run, Hupd. fold rest.
    by destruct (renameGitignore root w1) as [[[]|c|e] w2]. }
  split.
  - intros e w1 Hupd. pose proof (updatePackageJson_throws _ _ _ _ _ _ Hupd) as ->.
    split; [done|]. unfold run, createProject, scaffold. cbv zeta.
    fold (destination env o). fold root. fold appName.
    rewrite bind_run, bind_run. unfold run in Hmat. rewrite Hmat.
    by rewrite bind_run, Hupd.
  - intros w1 Hupd. specialize (Hgo w1 Hupd).
    destruct (updatePackageJson_files _ _ _ _ _ Hupd) as [text Hfiles].
    destruct w1 as [fs1 tr1]. simpl in Hfiles.
    rewrite renameGitignore_run in Hgo. cbv zeta in Hgo.
    fold gitignorePath dotted in Hgo.
    pose proof (renameGitignore_run root fs1 tr1) as Hren. cbv zeta in Hren.
    fold gitignorePath dotted in Hren. simpl.
    split_and!.
    + intros rel. rewrite Hfiles. apply lookup_insert_ne.
      unfold gitignorePath. rewrite <- app_assoc. intros H.
      by apply app_inv_head in H.
    + intros Hnone. rewrite Hnone in Hgo, Hren. done.
    + intros [n Hn] Hok. rewrite Hn, Hok in Hgo, Hren.
      eexists. split; [exact Hren|]. split; [exact Hgo|]. simpl. split_and!.
      * done.
      * intros rel. by apply move_tree_lookup_target.
      * intros rel. by apply move_tree_lookup_source.
      * intros p. by apply move_tree_lookup_outside.
    + intros e [n Hn] Herr. rewrite Hn, Herr in Hgo, Hren. done.
    + intros data Hdata. unfold rename_error. rewrite Hdata.
      by repeat case_match.
Qed.

(* ===================================================================== *)
(** * Skipping the installation *)
(* ===================================================================== *)

Lemma spawned_not_install evs :
  Forall (fun e => spawns_install e = false) evs →
  Forall (fun cd : command * path => is_install cd.1 = false) (spawned evs).
Proof.
  induction 1 as [|e evs He _ IH]; [constructor|].
  unfold spawned in *. destruct e as [| | | |[] ?| |]; simpl in *;
    try done; by constructor.
Qed.

Lemma emits_createProject_skipping (env : Env) (o : CreateProjectOptions) :
  skipInstall o = true →
  emits (fun e => spawns_install e = false) (createProject env o).
Proof.
  intros Hskip. unfold createProject, scaffold. cbv zeta.
  apply emits_bind; [|intros _].
  { apply emits_bind; [by apply emits_materialize|intros _].
    apply emits_bind; [by apply emits_updatePackageJson|intros _].
    by apply emits_renameGitignore. }
  apply emits_bind; [|intros _].
  { unfold installDependencies. rewrite Hskip. apply emits_skip. }
  apply emits_bind; [by apply emits_initializeGit|intros _].
  by apply emits_successMessage.
Qed.

(** C4, as the code has it. A run with [skipInstall] set spawns no
    installer: the children it spawns are those of repository
    initialisation only. It reaches repository initialisation with
    exactly the world, file system and trace, with which the same run
    without [skipInstall] reaches the installation. *)
Theorem skipInstall_run (env : Env) (o : CreateProjectOptions) (fs : FS) :
  skipInstall o = true →
  let o' := with_skipInstall o false in
  let root := destination env o in
  let appName := path_basename root in
  Forall (fun cd : command * path => is_install cd.1 = false)
         (spawned (trace (run (createProject env o) fs).2)) ∧
  (∀ w, scaffold env o w = scaffold env o' w) ∧
  (∀ w1, run (scaffold env o') fs = (Ret tt, w1) →
     run (createProject env o') fs =
       (installDependencies env o' root;;
        initializeGit env root;;
        successMessage env o' root appName) w1 ∧
     run (createProject env o) fs =
       (initializeGit env root;; successMessage env o root appName) w1).
Proof.
  intros Hskip o' root appName. split_and!.
  - destruct (emits_createProject_skipping env o Hskip {| files := fs; trace := [] |})
      as (evs & Ht & Hevs).
    unfold run. rewrite Ht. simpl. by apply spawned_not_install.
  - done.
  - intros w1 Hscaf. split.
    + unfold run, createProject. cbv zeta.
      by rewrite (bind_ret _ _ _ _ _ Hscaf).
    + unfold run, createProject. cbv zeta.
      change (scaffold env o) with (scaffold env o').
      rewrite (bind_ret _ _ _ _ _ Hscaf).
      fold (destination env o). fold root. fold appName.
      destruct w1 as [fs1 tr1].
      rewrite bind_run, installDependencies_run, Hskip. reflexivity.
Qed.

(** C4 as stated fails: with [skipInstall] set the run still spawns two
    child processes, those of repository initialisation, and the tree it
    ends with holds the [.git] they made, which the tree before
    installation does not. *)
Lemma skipInstall_still_spawns :
  let root := ["home"; "user"; "my-docs"] in
  let r := run (createProject (Demo.env true true)
                  (Demo.request "my-docs" "minimal" true)) Demo.disk in
  let before := run (scaffold (Demo.env true true)
                       (Demo.request "my-docs" "minimal" false)) Demo.disk in
  r.1 = Ret tt ∧
  spawned (trace r.2) = [(VcsInit, root); (VcsCommit, root)] ∧
  files r.2 !! (root ++ [".git"]) = Some Dir ∧
  files before.2 !! (root ++ [".git"]) = None.
Proof. by vm_compute. Qed.

(* ===================================================================== *)
(** * Repository initialisation never decides the run *)
(* ===================================================================== *)

(** How often a trace spawned repository initialisation. *)
Definition init_attempts (tr : list event) : nat :=
  List.length (omap (fun e => match e with
                        | Spawn VcsInit d => Some d
                        | _ => None
                        end) tr : list path).

Lemma init_attempts_app tr1 tr2 :
  init_attempts (tr1 ++ tr2) = init_attempts tr1 + init_attempts tr2.
Proof. unfold init_attempts. by rewrite omap_app, List.length_app. Qed.

Lemma init_attempts_none evs :
  Forall (fun e => ∀ d, e ≠ Spawn VcsInit d) evs → init_attempts evs = 0.
Proof.
  induction 1 as [|e evs He _ IH]; [done|].
  unfold init_attempts in *.
  destruct e as [| | | |[] ?| |]; simpl in *; try done.
  by destruct (He dir).
Qed.

Lemma errors_logs lines : errors (Log <$> lines) = [].
Proof. induction lines; done. Qed.

Lemma init_attempts_logs lines : init_attempts (Log <$> lines) = 0.
Proof. induction lines; done. Qed.

Lemma errors_vcs_events c root fs : errors (vcs_events c root fs) = [].
Proof. unfold vcs_events. by repeat case_match. Qed.

Lemma init_attempts_vcs_events c root fs : init_attempts (vcs_events c root fs) = 1.
Proof. unfold vcs_events. by repeat case_match. Qed.

(** The two last stages always return; they put nothing on the error
    stream and try the initialisation once. *)
Lemma finish_run (env : Env) (o : CreateProjectOptions) root appName w :
  ∃ w', (initializeGit env root;; successMessage env o root appName) w = (Ret tt, w') ∧
        errors (trace w') = errors (trace w) ∧
        init_attempts (trace w') = init_attempts (trace w) + 1.
Proof.
  destruct w as [fs tr]. rewrite finish_trace. eexists. split; [done|].
  cbn [trace].
  rewrite !errors_app, !init_attempts_app, errors_vcs_events, errors_logs,
    init_attempts_vcs_events, init_attempts_logs.
  by rewrite !app_nil_r, Nat.add_0_r.
Qed.

(** The run as what comes before repository initialisation, and the
    rest. *)
Lemma createProject_phases (env : Env) (o : CreateProjectOptions) w :
  createProject env o w =
  ((scaffold env o;; installDependencies env o (destination env o)) ≫=
   (fun _ => initializeGit env (destination env o);;
             successMessage env o (destination env o)
               (path_basename (destination env o)))) w.
Proof.
  unfold createProject. cbv zeta. symmetry.
  exact (bind_assoc (scaffold env o) _ _ w).
Qed.

(** Before repository initialisation only the installer is spawned. *)
Lemma emits_before_git (env : Env) (o : CreateProjectOptions) :
  emits (fun e => ∀ d, e ≠ Spawn VcsInit d)
        (scaffold env o;; installDependencies env o (destination env o)).
Proof.
  apply emits_bind; [|intros _; by apply emits_installDependencies].
  unfold scaffold. cbv zeta.
  apply emits_bind; [by apply emits_materialize|intros _].
  apply emits_bind; [by apply emits_updatePackageJson|intros _].
  by apply emits_renameGitignore.
Qed.

Lemma before_git_agree (env : Env) c1 c2 (o : CreateProjectOptions) w :
  (∀ line dir fs, c1 (CmdLine line) dir fs = c2 (CmdLine line) dir fs) →
  (scaffold (with_child env c1) o;;
   installDependencies (with_child env c1) o (destination env o)) w =
  (scaffold (with_child env c2) o;;
   installDependencies (with_child env c2) o (destination env o)) w.
Proof.
  intros Hagree.
  change (scaffold (with_child env c1) o) with (scaffold (with_child env c2) o).
  rewrite !bind_run.
  destruct (scaffold (with_child env c2) o w) as [[[]|c|e] [fs1 tr1]]; [|done..].
  rewrite !installDependencies_run. simpl. by rewrite Hagree.
Qed.

(** C7. Take two runs that differ only in how the children of repository
    initialisation fare. They end the same way, with the same exit code
    if any; they put the same lines on the error stream; and each tries
    the initialisation at most once. A run that gets as far as
    repository initialisation ends well whatever happens there, and its
    trace from there on is known event by event: the spawn of the
    initialisation, the spawn of the commit if the initialisation went
    well, the two lines of the announcement if both went well, and then
    the success message, the same lines in both runs. So a failure prints
    nothing on either stream and nothing is tried twice. The part that is
    createProject's own holds for any helper in the place of
    [tryGitInit]: when the helper returns false, nothing is printed and
    the run goes on. *)
Theorem vcs_failure_swallowed (env : Env) (c1 c2 : command -> path -> FS -> bool * FS)
    (o : CreateProjectOptions) (fs : FS) :
  (∀ line dir fs', c1 (CmdLine line) dir fs' = c2 (CmdLine line) dir fs') →
  let root := destination env o in
  let lines := success_lines env o root (path_basename root) in
  let r1 := run (createProject (with_child env c1) o) fs in
  let r2 := run (createProject (with_child env c2) o) fs in
  r1.1 = r2.1 ∧
  errors (trace r1.2) = errors (trace r2.2) ∧
  init_attempts (trace r1.2) ≤ 1 ∧
  init_attempts (trace r2.2) ≤ 1 ∧
  (∀ w, run (scaffold (with_child env c1) o;;
             installDependencies (with_child env c1) o root) fs
          = (Ret tt, w) →
        r1.1 = Ret tt ∧ r2.1 = Ret tt ∧
        trace r1.2 = trace w ++ vcs_events c1 root (files w) ++ (Log <$> lines) ∧
        trace r2.2 = trace w ++ vcs_events c2 root (files w) ++ (Log <$> lines)) ∧
  (∀ c fs',
     ((c VcsInit root fs').1 = false →
        vcs_events c root fs' = [Spawn VcsInit root]) ∧
     ((c VcsInit root fs').1 = true →
      (c VcsCommit root (c VcsInit root fs').2).1 = false →
        vcs_events c root fs' = [Spawn VcsInit root; Spawn VcsCommit root]) ∧
     ((c VcsInit root fs').1 = true →
      (c VcsCommit root (c VcsInit root fs').2).1 = true →
        vcs_events c root fs' = [Spawn VcsInit root; Spawn VcsCommit root;
                                 Log "Initialized a git repository."; Log ""])) ∧
  initializeGit env root = initializeGit_with (tryGitInit env) root ∧
  (∀ helper w w1, helper root w = (Ret false, w1) →
     initializeGit_with helper root w = (Ret tt, w1)) ∧
  (∀ helper w w1, helper root w = (Ret true, w1) →
     initializeGit_with helper root w =
       (Ret tt, {| files := files w1;
                   trace := trace w1 ++ [Log "Initialized a git repository.";
                                         Log ""] |})).
Proof.
  intros Hagree root lines r1 r2. subst r1 r2. unfold run.
  rewrite !createProject_phases.
  change (destination (with_child env c1) o) with root.
  change (destination (with_child env c2) o) with root.
  pose proof (before_git_agree env c1 c2 o {| files := fs; trace := [] |} Hagree) as Hpre.
  pose proof (emits_before_git (with_child env c2) o {| files := fs; trace := [] |}) as Hemit.
  change (destination (with_child env c2) o) with root in Hemit.
  fold root in Hpre.
  set (pre1 := scaffold (with_child env c1) o;;
               installDependencies (with_child env c1) o root) in *.
  set (pre2 := scaffold (with_child env c2) o;;
               installDependencies (with_child env c2) o root) in *.
  rewrite (bind_run pre1), (bind_run pre2), Hpre.
  assert (∀ c fs',
     ((c VcsInit root fs').1 = false →
        vcs_events c root fs' = [Spawn VcsInit root]) ∧
     ((c VcsInit root fs').1 = true →
      (c VcsCommit root (c VcsInit root fs').2).1 = false →
        vcs_events c root fs' = [Spawn VcsInit root; Spawn VcsCommit root]) ∧
     ((c VcsInit root fs').1 = true →
      (c VcsCommit root (c VcsInit root fs').2).1 = true →
        vcs_events c root fs' = [Spawn VcsInit root; Spawn VcsCommit root;
                                 Log "Initialized a git repository."; Log ""]))
    as Hevents.
  { intros c fs'. unfold vcs_events. cbv zeta.
    split_and!; [intros ->|intros -> ->|intros -> ->]; done. }
  assert (∀ (helper : path -> M bool) w w1, helper root w = (Ret false, w1) →
            initializeGit_with helper root w = (Ret tt, w1)) as Hfalse.
  { intros helper w w1 Hh. unfold initializeGit_with. by rewrite bind_run, Hh. }
  assert (∀ (helper : path -> M bool) w w1, helper root w = (Ret true, w1) →
            initializeGit_with helper root w =
              (Ret tt, {| files := files w1;
                          trace := trace w1 ++ [Log "Initialized a git repository.";
                                                Log ""] |})) as Htrue.
  { intros helper w w1 Hh. unfold initializeGit_with. rewrite bind_run, Hh.
    rewrite bind_run. unfold console_log, emit. cbn [files trace].
    by rewrite <- app_assoc. }
  destruct (pre2 {| files := fs; trace := [] |}) as [[[]|c|e] w1] eqn:Hrun;
    simpl in Hemit; destruct Hemit as (evs & Hevs & Hnone);
    apply init_attempts_none in Hnone; rewrite <- Hevs in Hnone.
  - destruct w1 as [fs1 tr1].
    rewrite (finish_trace (with_child env c1)), (finish_trace (with_child env c2)).
    cbn [fst snd trace files child with_child].
    change (success_lines (with_child env c1) o root (path_basename root)) with lines.
    change (success_lines (with_child env c2) o root (path_basename root)) with lines.
    simpl in Hnone.
    split_and!; [done| | | | |done..].
    + by rewrite !errors_app, !errors_vcs_events.
    + rewrite !init_attempts_app, init_attempts_vcs_events, init_attempts_logs, Hnone.
      simpl. lia.
    + rewrite !init_attempts_app, init_attempts_vcs_events, init_attempts_logs, Hnone.
      simpl. lia.
    + intros w [= <-]. split_and!; done.
  - simpl. rewrite Hnone.
    split_and!; [done|done|lia|lia|by intros w|done|done|done|done].
  - simpl. rewrite Hnone.
    split_and!; [done|done|lia|lia|by intros w|done|done|done|done].
Qed.

(* ===================================================================== *)
(** * A failing installer *)
(* ===================================================================== *)

(** X6. When the installer fails the run ends with exit code 1 right there:
    the file system stays as the installer left it, and the trace ends
    with the spawn and one line on the error stream. *)
Lemma createProject_install_fails (env : Env) (o : CreateProjectOptions)
    (fs : FS) (w1 : World) :
  let root := destination env o in
  let cmd := CmdLine (pmc_install (getPackageManagerCommand env (packageManager o))) in
  skipInstall o = false →
  run (scaffold env o) fs = (Ret tt, w1) →
  (child env cmd root (files w1)).1 = false →
  run (createProject env o) fs =
    (Exit 1, {| files := (child env cmd root (files w1)).2;
                trace := trace w1 ++ [Log "Installing dependencies..."; Log "";
                                      Spawn cmd root;
                                      Err "Failed to install dependencies."] |}).
Proof.
  intros root cmd Hskip Hscaf Hfail. unfold run, createProject. cbv zeta.
  rewrite (bind_ret _ _ _ _ _ Hscaf). apply bind_exit.
  destruct w1 as [fs1 tr1]. rewrite installDependencies_run, Hskip.
  cbv zeta. fold (destination env o). fold root. fold cmd.
  simpl in Hfail. by rewrite Hfail.
Qed.

(** C3 on the code: a run whose installer exits with a non-zero status.
    It ends with exit code 1 and the copied tree stays, manifest patched
    and ignore file renamed; but all it shows the user after the
    installer's own output is the line "Failed to install dependencies.":
    neither the [cd] nor the install command appears. *)
Lemma install_failure_shows_no_commands :
  let root := ["home"; "user"; "my-docs"] in
  let r := run (createProject (Demo.env false true)
                  (Demo.request "my-docs" "minimal" false)) Demo.disk in
  r.1 = Exit 1 ∧
  is_Some (files r.2 !! (root ++ ["package.json"])) ∧
  is_Some (files r.2 !! (root ++ [".gitignore"])) ∧
  console (trace r.2) =
    ["Creating a new Specra documentation site in /home/user/my-docs"; "";
     "Using template: minimal"; "";
     "Installing dependencies..."; "";
     "Failed to install dependencies."] ∧
  spawned (trace r.2) = [(CmdLine "npm install", root)].
Proof. vm_compute. split_and!; eauto. Qed.

(* ===================================================================== *)
(** * The statements at work on the concrete installation *)
(* ===================================================================== *)

(** Close an equation between closed terms by evaluating both sides. *)
Ltac by_evaluation :=
  lazymatch goal with
  | |- ?a = ?b => vm_cast_no_check (@eq_refl _ b)
  end.

Lemma outcome_pair {A} (r : outcome A * World) (a : A) :
  r.1 = Ret a → r = (Ret a, r.2).
Proof. destruct r as [out w]. simpl. by intros ->. Qed.

Lemma createProject_refuses_occupied_witness :
  ∃ line,
    run (createProject (Demo.env true true)
           (Demo.request "existing-dir" "minimal" false)) Demo.disk_with_notes =
    (Exit 1, {| files := Demo.disk_with_notes; trace := [Err line] |}).
Proof.
  apply (createProject_refuses_occupied _ _ _ "notes.txt").
  - vm_compute. eauto.
  - vm_compute. eauto.
  - by_evaluation.
Defined.


Lemma manifest_patched_witness :
  ∃ doc,
    written (trace (run (createProject (Demo.env true true)
                           (Demo.request "a/b/my-docs" "minimal" true)) Demo.disk).2) =
    [(["home"; "user"; "a"; "b"; "my-docs"; "package.json"],
      Demo.stringify doc 2 +:+ Demo.newline)] ∧
    files (run (createProject (Demo.env true true)
                  (Demo.request "a/b/my-docs" "minimal" true)) Demo.disk).2
      !! ["home"; "user"; "a"; "b"; "my-docs"; "package.json"] =
    Some (File (Demo.stringify doc 2 +:+ Demo.newline)) ∧
    path_basename (destination (Demo.env true true)
                     (Demo.request "a/b/my-docs" "minimal" true)) = "my-docs".
Proof.
  destruct (manifest_patched (Demo.env true true)
              (Demo.request "a/b/my-docs" "minimal" true) Demo.disk
              (run (createProject (Demo.env true true)
                      (Demo.request "a/b/my-docs" "minimal" true)) Demo.disk).2)
    as ((fs0 & text & parsed & doc & w2 & _ & _ & _ & _ & Hw & _ & _ & Hend & _) &
        _ & Hname).
  - apply outcome_pair. by_evaluation.
  - exists doc. split; [exact Hw|]. split.
    + apply Hend. intros cmd dir fs1.
      destruct cmd; simpl; [|apply lookup_insert_ne|done];
        try (apply lookup_insert_ne); intros H;
        change ["home"; "user"; "a"; "b"; "my-docs"; "package.json"]
          with (["home"; "user"; "a"; "b"; "my-docs"] ++ ["package.json"]) in H;
        by apply app_inj_tail in H as [_ ?].
    + apply (Hname "a/b" "my-docs"); [|reflexivity].
      unfold plain_name. split_and!; done.
Defined.

Lemma gitignore_renamed_witness :
  ∃ w2,
    renameGitignore ["home"; "user"; "my-docs"]
      (updatePackageJson (Demo.env true true) ["home"; "user"; "my-docs"] "my-docs"
         (run (materialize (Demo.env true true)
                 (Demo.request "my-docs" "minimal" true)) Demo.disk).2).2 =
      (Ret tt, w2) ∧
    files w2 !! ["home"; "user"; "my-docs"; ".gitignore"] = Some (File "node_modules").
Proof.
  destruct (gitignore_renamed (Demo.env true true)
              (Demo.request "my-docs" "minimal" true) Demo.disk
              (run (materialize (Demo.env true true)
                      (Demo.request "my-docs" "minimal" true)) Demo.disk).2)
    as [_ Hreturned].
  - apply outcome_pair. by_evaluation.
  - destruct (Hreturned
                (updatePackageJson (Demo.env true true)
                   ["home"; "user"; "my-docs"] "my-docs"
                   (run (materialize (Demo.env true true)
                           (Demo.request "my-docs" "minimal" true)) Demo.disk).2).2)
      as (_ & _ & Hmoved & _).
    + apply outcome_pair. by_evaluation.
    + destruct Hmoved as (w2 & Hren & _ & _ & Htarget & _).
      * vm_compute. eauto.
      * by_evaluation.
      * exists w2. split; [exact Hren|].
        pose proof (Htarget []) as Ht. rewrite !app_nil_r in Ht.
        etrans; [exact Ht|]. by_evaluation.
Defined.

Lemma skipInstall_run_witness :
  Forall (fun cd : command * path => is_install cd.1 = false)
    (spawned (trace (run (createProject (Demo.env true true)
                            (Demo.request "my-docs" "minimal" true)) Demo.disk).2)).
Proof.
  apply (skipInstall_run (Demo.env true true)
           (Demo.request "my-docs" "minimal" true) Demo.disk).
  reflexivity.
Defined.

Lemma vcs_failure_swallowed_witness :
  (run (createProject (with_child (Demo.env true true) (Demo.children true true))
          (Demo.request "my-docs" "minimal" false)) Demo.disk).1 =
  (run (createProject (with_child (Demo.env true true) (Demo.children true false))
          (Demo.request "my-docs" "minimal" false)) Demo.disk).1.
Proof.
  apply (vcs_failure_swallowed (Demo.env true true)
           (Demo.children true true) (Demo.children true false)
           (Demo.request "my-docs" "minimal" false) Demo.disk).
  intros line dir fs'. reflexivity.
Defined.

(* ===================================================================== *)
(** * More of createProject: the destination check *)
(* ===================================================================== *)

(** X1. An existing destination the process may not write to is refused
    first, whatever it holds: exit code 1, one line on the error stream,
    nothing touched. *)
Theorem createProject_unwritable (env : Env) (o : CreateProjectOptions) (fs : FS) :
  is_Some (fs !! destination env o) →
  isWriteable env (destination env o) = false →
  run (createProject env o) fs =
  (Exit 1, {| files := fs;
              trace := [Err ("The directory " +:+ projectName o +:+
                             " is not writable.")] |}).
Proof.
  intros Hex Hw. unfold run, createProject, scaffold, materialize. cbv zeta.
  fold (destination env o). do 3 apply bind_exit.
  unfold checkDirectory.
  rewrite bind_run, existsSync_run, bool_decide_true by done.
  rewrite Hw. reflexivity.
Qed.



(* ===================================================================== *)
(** * More of createProject: what the scaffold leaves alone *)
(* ===================================================================== *)

(** [outside_kept root fs fs']: away from [root], [fs'] is [fs], but for
    directories on the way to [root] that [fs] lacked. *)
Definition outside_kept (root : path) (fs fs' : FS) : Prop :=
  ∀ p : path, strip_prefix root p = None →
    fs' !! p = fs !! p ∨
    (fs !! p = None ∧ fs' !! p = Some Dir ∧ p `prefix_of` root).

(** [m] keeps the invariant [I] of the file system, however it ends. *)
Definition keeps {A : Type} (I : FS -> Prop) (m : M A) : Prop :=
  ∀ w, I (files w) → I (files (m w).2).

Lemma strip_prefix_below (root rel p : path) :
  strip_prefix root p = None → strip_prefix (root ++ rel) p = None.
Proof.
  intros Hout. destruct (strip_prefix (root ++ rel) p) as [r|] eqn:E; [|done].
  apply strip_prefix_Some in E. rewrite <- app_assoc in E.
  apply strip_prefix_Some in E. congruence.
Qed.

Lemma strip_prefix_None_ne (root rel p : path) :
  strip_prefix root p = None → p ≠ root ++ rel.
Proof. intros Hout ->. by rewrite strip_prefix_app in Hout. Qed.

Section Keeps.

Context (I : FS -> Prop).

Lemma keeps_same {A} (m : M A) : (∀ w, files (m w).2 = files w) → keeps I m.
Proof. intros H w Hw. by rewrite H. Qed.

Lemma keeps_bind {A B} (m : M A) (k : A -> M B) :
  keeps I m → (∀ a, keeps I (k a)) → keeps I (m ≫= k).
Proof.
  intros Hm Hk w Hw. rewrite bind_run. specialize (Hm w Hw).
  destruct (m w) as [[a|c|e] w1]; simpl in *; [|done..].
  by apply Hk.
Qed.

Lemma keeps_emit e : keeps I (emit e).
Proof. by apply keeps_same. Qed.

Lemma keeps_skip : keeps I skip.
Proof. by apply keeps_same. Qed.

Lemma keeps_exit {A} c : keeps I (process_exit c : M A).
Proof. by apply keeps_same. Qed.

Lemma keeps_throw {A} e : keeps I (throw e : M A).
Proof. by apply keeps_same. Qed.

Lemma keeps_update (f : FS -> option FS) (e : error) :
  (∀ fs fs', I fs → f fs = Some fs' → I fs') →
  keeps I (fs ← get_files;
           match f fs with Some fs' => put_files fs' | None => throw e end).
Proof.
  intros Hf [fs tr] Hw. rewrite bind_run. simpl in *.
  destruct (f fs) as [fs'|] eqn:E; simpl; eauto.
Qed.

End Keeps.

Section Frame.

Context (env : Env) (o : CreateProjectOptions) (fs : FS).

Let root := destination env o.
Let I := outside_kept root fs.

Lemma keeps_existsSync p : keeps I (existsSync p).
Proof. by apply keeps_same. Qed.

Lemma keeps_mkdirSync : keeps I (mkdirSync root).
Proof.
  unfold mkdirSync. apply keeps_bind; [apply keeps_emit|intros _].
  apply keeps_update. intros fs1 fs2 H1 Hmk p Hp.
  destruct (mkdirp_lookup [] root fs1 fs2 p Hmk) as [->|(Hn & Hd & Hpre)];
    [by apply H1|].
  destruct (H1 p Hp) as [Heq|(? & ? & ?)]; [|congruence].
  right. rewrite <- Heq. done.
Qed.

Lemma keeps_copyRecursive src : keeps I (copyRecursive src root).
Proof.
  unfold copyRecursive. apply keeps_bind; [apply keeps_emit|intros _].
  intros [fs1 tr] H1 p Hp. simpl in *.
  rewrite copy_tree_lookup_outside by done. by apply H1.
Qed.

Lemma keeps_writeFileSync rel data : keeps I (writeFileSync (root ++ rel) data).
Proof.
  unfold writeFileSync. apply keeps_bind; [apply keeps_emit|intros _].
  intros [fs1 tr] H1. rewrite bind_run. simpl in *.
  destruct (fs1 !! (root ++ rel)) as [[?|]|]; simpl; try done;
    intros p Hp; rewrite lookup_insert_ne by (symmetry; by apply strip_prefix_None_ne);
    by apply H1.
Qed.

Lemma keeps_renameSync a b : keeps I (renameSync (root ++ a) (root ++ b)).
Proof.
  unfold renameSync. apply keeps_bind; [apply keeps_emit|intros _].
  intros [fs1 tr] H1. rewrite bind_run. simpl in *.
  destruct (rename_error fs1 (root ++ a) (root ++ b)); simpl; [done|].
  case_decide; [done|].
  intros p Hp. rewrite move_tree_lookup_outside by by apply strip_prefix_below.
  by apply H1.
Qed.

Lemma keeps_checkDirectory : keeps I (checkDirectory env o root).
Proof.
  unfold checkDirectory. apply keeps_bind; [apply keeps_existsSync|intros found].
  destruct found; [|apply keeps_mkdirSync].
  apply keeps_bind; [|intros _].
  { destruct (negb _); [|apply keeps_skip].
    apply keeps_bind; [apply keeps_emit|intros _; apply keeps_exit]. }
  apply keeps_bind; [by apply keeps_same|intros empty].
  destruct (negb _); [|apply keeps_skip].
  apply keeps_bind; [apply keeps_emit|intros _; apply keeps_exit].
Qed.

Lemma keeps_resolveTemplate : keeps I (resolveTemplate env o).
Proof.
  unfold resolveTemplate. cbv zeta.
  apply keeps_bind; [apply keeps_existsSync|intros found].
  apply keeps_bind; [|intros _; by apply keeps_same].
  destruct (negb _); [|apply keeps_skip].
  apply keeps_bind; [apply keeps_emit|intros _; apply keeps_exit].
Qed.

Lemma keeps_updatePackageJson appName : keeps I (updatePackageJson env root appName).
Proof.
  unfold updatePackageJson. cbv zeta.
  apply keeps_bind; [|intros text].
  { unfold readFileSync. intros [fs1 tr] H1. rewrite bind_run. simpl in *.
    by destruct (fs1 !! (root ++ ["package.json"])) as [[?|]|]. }
  destruct (JSON_parse env text) as [parsed|]; [|apply keeps_throw].
  destruct (assign_name parsed _); [|apply keeps_throw].
  apply keeps_writeFileSync.
Qed.

Lemma keeps_renameGitignore : keeps I (renameGitignore root).
Proof.
  unfold renameGitignore. cbv zeta.
  apply keeps_bind; [apply keeps_existsSync|intros found].
  destruct found; [apply keeps_renameSync|apply keeps_skip].
Qed.

Lemma keeps_scaffold : keeps I (scaffold env o).
Proof.
  unfold scaffold, materialize. cbv zeta. fold (destination env o). fold root.
  apply keeps_bind; [|intros _].
  { apply keeps_bind; [apply keeps_checkDirectory|intros _].
    do 2 (apply keeps_bind; [apply keeps_emit|intros _]).
    apply keeps_bind; [apply keeps_resolveTemplate|intros templateDir].
    do 2 (apply keeps_bind; [apply keeps_emit|intros _]).
    apply keeps_copyRecursive. }
  apply keeps_bind; [apply keeps_updatePackageJson|intros _].
  apply keeps_renameGitignore.
Qed.

End Frame.

(** X3. However the scaffold ends, every entry that is not at or below the
    destination is as it was; the one exception are directories on the
    way to the destination that did not exist and were created. The
    template, when it lies elsewhere, is never changed. *)
Theorem scaffold_frame (env : Env) (o : CreateProjectOptions) (fs : FS) (p : path) :
  strip_prefix (destination env o) p = None →
  let fs' := files (run (scaffold env o) fs).2 in
  fs' !! p = fs !! p ∨
  (fs !! p = None ∧ fs' !! p = Some Dir ∧ p `prefix_of` destination env o).
Proof.
  intros Hp. apply (keeps_scaffold env o fs {| files := fs; trace := [] |}); [|done].
  intros q Hq. by left.
Qed.

(** X4. The two patches change the manifest and the ignore file and nothing
    else: every other path holds after them what the copy left there. *)
Theorem patches_frame (env : Env) (o : CreateProjectOptions) (w1 : World) (p : path) :
  let root := destination env o in
  let w2 := ((updatePackageJson env root (path_basename root);;
              renameGitignore root) w1).2 in
  p ≠ root ++ ["package.json"] →
  strip_prefix (root ++ ["gitignore"]) p = None →
  strip_prefix (root ++ [".gitignore"]) p = None →
  files w2 !! p = files w1 !! p.
Proof.
  intros root w2 Hm Hg Hd. subst w2. destruct w1 as [fs1 tr1].
  rewrite bind_run, updatePackageJson_run. cbv zeta.
  destruct (fs1 !! (root ++ ["package.json"])) as [[text|]|]; [|done..].
  destruct (JSON_parse env text) as [parsed|]; [|done].
  destruct (assign_name parsed _) as [doc|]; [|done].
  rewrite renameGitignore_run. cbv zeta.
  destruct (_ !! (root ++ ["gitignore"])); simpl.
  - destruct (rename_error _ _ _); simpl.
    + by rewrite lookup_insert_ne.
    + rewrite move_tree_lookup_outside by done. by rewrite lookup_insert_ne.
  - by rewrite lookup_insert_ne.
Qed.

(* ===================================================================== *)
(** * More of createProject: a template without a usable manifest *)
(* ===================================================================== *)

(** X5. When the copied tree has no [package.json], or one that does not
    parse, the run ends with the exception, uncaught: nothing is cleaned
    up, the destination stays as the copy left it, and no rename and no
    child process follows. *)
Theorem createProject_manifest_unusable (env : Env) (o : CreateProjectOptions)
    (fs : FS) (w1 : World) :
  let manifest := destination env o ++ ["package.json"] in
  run (materialize env o) fs = (Ret tt, w1) →
  (files w1 !! manifest = None →
     run (createProject env o) fs = (Throw (ENOENT manifest), w1)) ∧
  (∀ text, files w1 !! manifest = Some (File text) → JSON_parse env text = None →
     run (createProject env o) fs = (Throw SyntaxError, w1)).
Proof.
  intros manifest Hmat. unfold run, createProject, scaffold. cbv zeta.
  fold (destination env o). unfold run in Hmat.
  destruct w1 as [fs1 tr1]. split.
  - intros Hno. simpl in Hno.
    apply bind_throw. rewrite (bind_ret _ _ _ _ _ Hmat).
    apply bind_throw. rewrite updatePackageJson_run. cbv zeta.
    fold manifest. by rewrite Hno.
  - intros text Hfile Hparse. simpl in Hfile.
    apply bind_throw. rewrite (bind_ret _ _ _ _ _ Hmat).
    apply bind_throw. rewrite updatePackageJson_run. cbv zeta.
    fold manifest. by rewrite Hfile, Hparse.
Qed.

(* ===================================================================== *)
(** * More of createProject: order and report *)
(* ===================================================================== *)

Definition is_spawn (e : event) : bool :=
  match e with Spawn _ _ => true | _ => false end.

Definition changes_files (e : event) : bool :=
  match e with
  | Mkdir _ | CopyTree _ _ | WriteFile _ _ | Rename _ _ => true
  | _ => false
  end.

Lemma emits_scaffold_no_spawn (env : Env) (o : CreateProjectOptions) :
  emits (fun e => is_spawn e = false) (scaffold env o).
Proof.
  unfold scaffold. cbv zeta.
  apply emits_bind; [by apply emits_materialize|intros _].
  apply emits_bind; [by apply emits_updatePackageJson|intros _].
  by apply emits_renameGitignore.
Qed.

Lemma emits_rest_no_change (env : Env) (o : CreateProjectOptions) root appName :
  emits (fun e => changes_files e = false)
    (installDependencies env o root;;
     initializeGit env root;;
     successMessage env o root appName).
Proof.
  apply emits_bind; [by apply emits_installDependencies|intros _].
  apply emits_bind; [by apply emits_initializeGit|intros _].
  by apply emits_successMessage.
Qed.

(** X7. Of its own steps, createProject performs every one that changes the
    file system before it starts the first child process: the trace of
    any run splits into a part without a spawn and a part without a
    mkdir, copy, write or rename. *)
Theorem createProject_changes_before_spawns (env : Env) (o : CreateProjectOptions)
    (fs : FS) :
  ∃ before after,
    trace (run (createProject env o) fs).2 = before ++ after ∧
    Forall (fun e => is_spawn e = false) before ∧
    Forall (fun e => changes_files e = false) after.
Proof.
  unfold run, createProject. cbv zeta. rewrite bind_run.
  destruct (emits_scaffold_no_spawn env o {| files := fs; trace := [] |})
    as (evs1 & Ht1 & Hevs1).
  destruct (scaffold env o {| files := fs; trace := [] |}) as [[[]|c|e] w1] eqn:E;
    simpl in Ht1.
  - destruct (emits_rest_no_change env o (path_resolve (cwd env) (projectName o))
                (path_basename (path_resolve (cwd env) (projectName o))) w1)
      as (evs2 & Ht2 & Hevs2).
    exists evs1, evs2. by rewrite Ht2, Ht1.
  - exists evs1, []. simpl. by rewrite Ht1, app_nil_r.
  - exists evs1, []. simpl. by rewrite Ht1, app_nil_r.
Qed.

Lemma console_app tr1 tr2 : console (tr1 ++ tr2) = console tr1 ++ console tr2.
Proof. unfold console. apply omap_app. Qed.

(** X8. A run that ends well has told the user, last of all, how to enter
    the project, by the name given on the command line, and how to start
    the development server with the package manager of the run. *)
Theorem createProject_reports_next_steps (env : Env) (o : CreateProjectOptions)
    (fs : FS) (w' : World) :
  run (createProject env o) fs = (Ret tt, w') →
  ∃ earlier,
    console (trace w') =
    earlier ++ ["We suggest that you begin by typing:"; "";
                "  cd " +:+ projectName o;
                "  " +:+ pmc_run (getPackageManagerCommand env (packageManager o)) "dev";
                ""].
Proof.
  intros Hrun. unfold run, createProject in Hrun. cbv zeta in Hrun.
  apply bind_ret_inv in Hrun as ([] & w1 & _ & Hrun).
  apply bind_ret_inv in Hrun as ([] & w2 & _ & Hrun).
  apply bind_ret_inv in Hrun as ([] & [fs3 tr3] & _ & Hrun).
  unfold successMessage in Hrun. cbv zeta in Hrun.
  repeat (rewrite bind_run in Hrun; unfold console_log at 1, emit in Hrun;
          cbn [files trace] in Hrun).
  unfold console_log, emit in Hrun. cbn [files trace] in Hrun.
  injection Hrun as <-. cbn [trace]. rewrite <- !app_assoc.
  rewrite console_app. eexists (console tr3 ++ [_; _; _; _; _; _; _; _; _; _; _; _; _]).
  rewrite <- app_assoc. f_equal.
Qed.

(* ===================================================================== *)
(** * The documentation page of the minimal template
      (app/docs/[version]/[...slug]/page.tsx) *)
(* ===================================================================== *)

Module DocsPage.

(** [doc.meta], as far as the page reads it. *)
Record DocMeta := {
  meta_title : option string;
  meta_description : option string;
  tab_group : option string
}.

Record Doc := {
  meta : DocMeta;
  title : string;
  slug : string;
  content : string;
  categoryTabGroup : option string
}.

(** [a || b] on strings: the empty string and an absent value are falsy. *)
Definition or_string (a : option string) (b : string) : string :=
  match a with
  | Some s => if decide (s = "") then b else s
  | None => b
  end.

Definition or_option (a b : option string) : option string :=
  match a with
  | Some s => if decide (s = "") then b else Some s
  | None => b
  end.

Record OpenGraph := {
  og_title : string;
  og_description : string;
  og_url : string;
  og_siteName : string;
  og_type : string;
  og_locale : string
}.

Record Twitter := {
  tw_card : string;
  tw_title : string;
  tw_description : string
}.

Record Metadata := {
  md_title : string;
  md_description : string;
  md_openGraph : option OpenGraph;
  md_twitter : option Twitter;
  md_canonical : option string
}.

(** [array.join("/")] *)
Definition join_slash (segments : list string) : string :=
  String.concat "/" segments.

(** [s.split("/").filter(Boolean)] *)
Definition slug_segments (s : string) : list string :=
  filter (fun seg => seg ≠ "") (split_slash s).

Section Page.

(** The documentation library the page is built on (specra/lib). *)
Variable getCachedDocBySlug : string -> string -> option Doc.
Variable getCachedAllDocs : string -> list Doc.
Variable isCategoryPage : string -> list Doc -> bool.
Variable getAdjacentDocs : string -> list Doc -> option Doc * option Doc.
Variable TocItem : Type.
Variable extractTableOfContents : string -> list TocItem.

Definition generateMetadata (version : string) (slugArray : list string) : Metadata :=
  let slug := join_slash slugArray in
  match getCachedDocBySlug slug version with
  | None =>
      {| md_title := "Page Not Found";
         md_description := "The requested documentation page could not be found.";
         md_openGraph := None; md_twitter := None; md_canonical := None |}
  | Some doc =>
      let title := or_string (meta_title (meta doc)) (title doc) in
      let description :=
        or_string (meta_description (meta doc)) ("Documentation for " +:+ title) in
      let url := "/docs/" +:+ version +:+ "/" +:+ slug in
      {| md_title := title;
         md_description := description;
         md_openGraph :=
           Some {| og_title := title; og_description := description; og_url := url;
                   og_siteName := "Documentation Platform"; og_type := "article";
                   og_locale := "en_US" |};
         md_twitter :=
           Some {| tw_card := "summary_large_image"; tw_title := title;
                   tw_description := description |};
         md_canonical := Some url |}
  end.

Definition generateStaticParams (versions : list string)
    : list (string * list string) :=
  version ← versions;
  (fun doc => (version, slug_segments (slug doc))) <$> getCachedAllDocs version.

(** [/\w/] *)
Definition is_word_char (c : ascii) : bool :=
  let n := nat_of_ascii c in
  ((48 <=? n) && (n <=? 57)) || ((65 <=? n) && (n <=? 90)) ||
  ((97 <=? n) && (n <=? 122)) || (n =? 95).

(** [toUpperCase] on one character matched by [\w] *)
Definition to_upper (c : ascii) : ascii :=
  let n := nat_of_ascii c in
  if (97 <=? n) && (n <=? 122) then ascii_of_nat (n - 32) else c.

(** [.replace(/-/g, " ")] *)
Fixpoint replace_hyphens (s : string) : string :=
  match s with
  | EmptyString => EmptyString
  | String c rest =>
      String (if decide (c = "-"%char) then " "%char else c) (replace_hyphens rest)
  end.

(** [.replace(/\b\w/g, l => l.toUpperCase())]: [boundary] says that no
    word character stands before the rest. *)
Fixpoint capitalize_from (boundary : bool) (s : string) : string :=
  match s with
  | EmptyString => EmptyString
  | String c rest =>
      String (if boundary && is_word_char c then to_upper c else c)
             (capitalize_from (negb (is_word_char c)) rest)
  end.

Definition capitalize_words (s : string) : string := capitalize_from true s.

(** The title of a category that has no document of its own. *)
Definition category_title (slug : string) : string :=
  let last_segment := List.last (split_slash slug) "" in
  let words := capitalize_words (replace_hyphens last_segment) in
  if decide (words = "") then "Category" else words.

(** What the layout shows in its main column. *)
Inductive Body :=
| CategoryIndexOfSlug (categoryPath version title description : string)
| NotFoundContent (version : string)
| CategoryIndexOfDoc (categoryPath version : string)
    (title description : option string) (content : string)
| DocLayout (meta : DocMeta) (content : string)
    (previousDoc nextDoc : option (option string * string))
    (version slug : string).

Inductive TocColumn :=
| EmptyColumn
| TableOfContents (items : list TocItem).

Record Page := {
  page_docs : list Doc;
  page_version : string;
  page_body : Body;
  page_toc : TocColumn;
  currentPageTabGroup : option string;
  in_suspense : bool;
  mdxHotReload : bool;
  hotReloadIndicator : bool;
  devModeBadge : bool
}.

Definition doc_link (d : Doc) : option string * string :=
  (meta_title (meta d), slug d).

Definition DocPage (version : string) (slugArray : list string) : Page :=
  let slug := join_slash slugArray in
  let allDocs := getCachedAllDocs version in
  let isCategory := isCategoryPage slug allDocs in
  match getCachedDocBySlug slug version with
  | None =>
      if isCategory then
        let categoryDoc :=
          List.find (fun d => String.prefix (slug +:+ "/") (DocsPage.slug d)) allDocs in
        let categoryTabGroup :=
          or_option (categoryDoc ≫= fun d => tab_group (meta d))
                    (categoryDoc ≫= categoryTabGroup) in
        {| page_docs := allDocs; page_version := version;
           page_body := CategoryIndexOfSlug slug version (category_title slug)
                          "Browse the documentation in this section.";
           page_toc := EmptyColumn;
           currentPageTabGroup := categoryTabGroup;
           in_suspense := false;
           mdxHotReload := true; hotReloadIndicator := true; devModeBadge := true |}
      else
        {| page_docs := allDocs; page_version := version;
           page_body := NotFoundContent version;
           page_toc := EmptyColumn;
           currentPageTabGroup := None;
           in_suspense := true;
           mdxHotReload := true; hotReloadIndicator := true; devModeBadge := true |}
  | Some doc =>
      let toc := extractTableOfContents (content doc) in
      let adjacent := getAdjacentDocs slug allDocs in
      let showCategoryIndex := isCategory in
      {| page_docs := allDocs; page_version := version;
         page_body :=
           if showCategoryIndex then
             CategoryIndexOfDoc slug version (meta_title (meta doc))
               (meta_description (meta doc)) (content doc)
           else
             DocLayout (meta doc) (content doc)
               (doc_link <$> adjacent.1) (doc_link <$> adjacent.2) version slug;
         page_toc := if showCategoryIndex then EmptyColumn else TableOfContents toc;
         currentPageTabGroup := or_option (tab_group (meta doc)) (categoryTabGroup doc);
         in_suspense := true;
         mdxHotReload := true; hotReloadIndicator := true; devModeBadge := false |}
  end.

End Page.

Arguments EmptyColumn {TocItem}.
Arguments TableOfContents {TocItem} items.
Arguments page_docs {TocItem} _.
Arguments page_version {TocItem} _.
Arguments page_body {TocItem} _.
Arguments page_toc {TocItem} _.
Arguments currentPageTabGroup {TocItem} _.
Arguments in_suspense {TocItem} _.
Arguments mdxHotReload {TocItem} _.
Arguments hotReloadIndicator {TocItem} _.
Arguments devModeBadge {TocItem} _.
Arguments DocPage _ _ _ _ {TocItem} _ _ _.

(** A word of a slug: word characters only, and at least one. *)
Fixpoint all_word_chars (s : string) : bool :=
  match s with
  | EmptyString => true
  | String c rest => is_word_char c && all_word_chars rest
  end.

Definition slug_word (w : string) : Prop := w ≠ "" ∧ all_word_chars w = true.

(** The word with its first letter in upper case. *)
Definition capitalized (w : string) : string :=
  match w with
  | EmptyString => EmptyString
  | String c rest => String (to_upper c) rest
  end.

End DocsPage.

Module DocsPageFacts.
Import DocsPage.

Lemma concat_cons sep x y ys :
  String.concat sep (x :: y :: ys) = x +:+ sep +:+ String.concat sep (y :: ys).
Proof. reflexivity. Qed.

(** Splitting at the slashes and joining with slashes gives the string
    back. *)
Lemma join_split s : join_slash (split_slash s) = s.
Proof.
  unfold join_slash. induction s as [|c s IH]; [done|]. simpl.
  pose proof (split_slash_nonempty s) as Hne.
  case_decide as Hc.
  - destruct (split_slash s) as [|seg segs] eqn:E; [done|].
    rewrite concat_cons, IH. by subst.
  - destruct (split_slash s) as [|seg [|seg' segs]] eqn:E; [done|..].
    + simpl in *. by rewrite IH.
    + rewrite concat_cons. rewrite concat_cons in IH. by rewrite <- IH.
Qed.

Lemma split_slash_segments s seg : seg ∈ split_slash s → has_slash seg = false.
Proof.
  revert seg. induction s as [|c s IH]; intros seg; simpl.
  - by intros ->%list_elem_of_singleton.
  - case_decide as Hc.
    + intros [->|Hin]%elem_of_cons; [done|by apply IH].
    + pose proof (split_slash_nonempty s) as Hne.
      destruct (split_slash s) as [|seg0 segs]; [done|].
      intros [->|Hin]%elem_of_cons.
      * simpl. rewrite bool_decide_false by done. apply IH. by left.
      * apply IH. by right.
Qed.

Lemma slug_segments_clean s :
  "" ∉ split_slash s → slug_segments s = split_slash s.
Proof.
  intros Hno. unfold slug_segments.
  induction (split_slash s) as [|seg segs IH]; [done|].
  apply not_elem_of_cons in Hno as [Hne Hno].
  rewrite filter_cons_True by done. by rewrite IH.
Qed.

Lemma slug_round_trip s :
  s = "" ∨ "" ∉ split_slash s → join_slash (slug_segments s) = s.
Proof.
  intros [->|Hno]; [done|].
  rewrite slug_segments_clean by done. apply join_split.
Qed.

Section Facts.

Context (getCachedDocBySlug : string -> string -> option Doc).
Context (getCachedAllDocs : string -> list Doc).
Context (isCategoryPage : string -> list Doc -> bool).
Context (getAdjacentDocs : string -> list Doc -> option Doc * option Doc).
Context (TocItem : Type) (extractTableOfContents : string -> list TocItem).

Lemma or_string_nonempty a b : b ≠ "" → or_string a b ≠ "".
Proof. intros Hb. destruct a as [s|]; simpl; [by case_decide|done]. Qed.

(** X9. The metadata of a page is of one of two kinds. For a slug without a
    document it is the bare not-found pair. For a document, the title and
    the description are the same in the page, the Open Graph and the
    Twitter entry; the Open Graph address and the canonical address are
    both [/docs/<version>/<slug>]; the description is never empty, and
    the title is empty only if the document's own title is. *)
Theorem metadata_consistent (version : string) (slugArray : list string) :
  let m := generateMetadata getCachedDocBySlug version slugArray in
  match getCachedDocBySlug (join_slash slugArray) version with
  | None =>
      md_title m = "Page Not Found" ∧
      md_openGraph m = None ∧ md_twitter m = None ∧ md_canonical m = None
  | Some doc =>
      ∃ og tw,
        md_openGraph m = Some og ∧ md_twitter m = Some tw ∧
        og_title og = md_title m ∧ tw_title tw = md_title m ∧
        og_description og = md_description m ∧
        tw_description tw = md_description m ∧
        og_url og = "/docs/" +:+ version +:+ "/" +:+ join_slash slugArray ∧
        md_canonical m = Some (og_url og) ∧
        md_description m ≠ "" ∧
        (title doc ≠ "" → md_title m ≠ "")
  end.
Proof.
  unfold generateMetadata. cbv zeta.
  destruct (getCachedDocBySlug (join_slash slugArray) version) as [doc|]; [|done].
  do 2 eexists. simpl. split_and!; try reflexivity.
  - by apply or_string_nonempty.
  - apply or_string_nonempty.
Qed.

(** X10. A category that has no document of its own gets a page, the index of
    the category under a title made from the slug, but its metadata are
    those of a page that was not found. The not-found page itself appears
    only when the slug is not a category either. *)
Theorem category_without_document (version : string) (slugArray : list string) :
  let slug := join_slash slugArray in
  let page := DocPage getCachedDocBySlug getCachedAllDocs isCategoryPage
                getAdjacentDocs extractTableOfContents version slugArray in
  let m := generateMetadata getCachedDocBySlug version slugArray in
  getCachedDocBySlug slug version = None →
  md_title m = "Page Not Found" ∧
  page_toc page = EmptyColumn ∧
  devModeBadge page = true ∧
  (isCategoryPage slug (getCachedAllDocs version) = true →
     page_body page = CategoryIndexOfSlug slug version (category_title slug)
                        "Browse the documentation in this section.") ∧
  (isCategoryPage slug (getCachedAllDocs version) = false →
     page_body page = NotFoundContent version ∧ currentPageTabGroup page = None).
Proof.
  intros slug page m Hno. subst page m. unfold DocPage, generateMetadata. cbv zeta.
  fold slug. rewrite Hno.
  destruct (isCategoryPage slug (getCachedAllDocs version)); simpl; split_and!; done.
Qed.

(** For a document, the table of contents is shown exactly when the page
    is not a category page; a category page shows the index with the
    document's own title and text instead. The tab group is the
    document's, or else that of its category. *)
Theorem document_page (version : string) (slugArray : list string) (doc : Doc) :
  let slug := join_slash slugArray in
  let page := DocPage getCachedDocBySlug getCachedAllDocs isCategoryPage
                getAdjacentDocs extractTableOfContents version slugArray in
  getCachedDocBySlug slug version = Some doc →
  (page_toc page = TableOfContents (extractTableOfContents (content doc)) ↔
   isCategoryPage slug (getCachedAllDocs version) = false) ∧
  (isCategoryPage slug (getCachedAllDocs version) = true →
     page_toc page = EmptyColumn ∧
     page_body page = CategoryIndexOfDoc slug version (meta_title (meta doc))
                        (meta_description (meta doc)) (content doc)) ∧
  (∀ group, group ≠ "" → tab_group (meta doc) = Some group →
     currentPageTabGroup page = Some group) ∧
  (tab_group (meta doc) = None → currentPageTabGroup page = categoryTabGroup doc) ∧
  devModeBadge page = false.
Proof.
  intros slug page Hdoc. subst page. unfold DocPage. cbv zeta.
  fold slug. rewrite Hdoc. simpl.
  destruct (isCategoryPage slug (getCachedAllDocs version)); simpl; split_and!;
    try done.
  - intros group Hne ->. simpl. by rewrite decide_False.
  - by intros ->.
  - intros group Hne ->. simpl. by rewrite decide_False.
  - by intros ->.
Qed.

(** X11. Every document with a well-formed slug, one without a leading, a
    trailing or a doubled slash, has a generated page whose segments join
    back to exactly that slug, so the page looks up the document it was
    generated for. *)
Theorem static_params_round_trip (versions : list string) (version : string)
    (doc : Doc) :
  version ∈ versions →
  doc ∈ getCachedAllDocs version →
  slug doc = "" ∨ "" ∉ split_slash (slug doc) →
  ∃ segments,
    (version, segments) ∈ generateStaticParams getCachedAllDocs versions ∧
    join_slash segments = slug doc ∧
    generateMetadata getCachedDocBySlug version segments =
      generateMetadata getCachedDocBySlug version [slug doc].
Proof.
  intros Hv Hd Hclean. exists (slug_segments (slug doc)). split_and!.
  - unfold generateStaticParams. apply list_elem_of_bind. exists version.
    split; [|done]. apply list_elem_of_fmap. by exists doc.
  - by apply slug_round_trip.
  - unfold generateMetadata. cbv zeta. by rewrite slug_round_trip.
Qed.

(** X12. The generated parameters name a known version, and none of their
    segments is empty or holds a slash. *)
Theorem static_params_segments (versions : list string) (version : string)
    (segments : list string) :
  (version, segments) ∈ generateStaticParams getCachedAllDocs versions →
  version ∈ versions ∧
  (∃ doc, doc ∈ getCachedAllDocs version ∧ segments = slug_segments (slug doc)) ∧
  ∀ seg, seg ∈ segments → seg ≠ "" ∧ has_slash seg = false.
Proof.
  unfold generateStaticParams. intros (v & Hin & Hv)%list_elem_of_bind.
  apply list_elem_of_fmap in Hin as (doc & [= -> ->] & Hdoc).
  split_and!; [done|by exists doc|].
  intros seg Hseg. unfold slug_segments in Hseg.
  apply list_elem_of_filter in Hseg as [Hne Hseg].
  split; [done|]. by apply (split_slash_segments (slug doc)).
Qed.

End Facts.

End DocsPageFacts.

Module CategoryTitleFacts.
Import DocsPage.

Lemma word_char_not_hyphen c : is_word_char c = true → c ≠ "-"%char.
Proof. intros H ->. done. Qed.

Lemma word_char_not_slash c : is_word_char c = true → c ≠ slash.
Proof. intros H ->. done. Qed.

Lemma replace_hyphens_app a b :
  replace_hyphens (a +:+ b) = replace_hyphens a +:+ replace_hyphens b.
Proof. induction a as [|c a IH]; simpl; [done|]. by rewrite IH. Qed.

Lemma replace_hyphens_word w : all_word_chars w = true → replace_hyphens w = w.
Proof.
  induction w as [|c w IH]; simpl; [done|].
  intros [Hc Hw]%andb_true_iff.
  rewrite decide_False by by apply word_char_not_hyphen. by rewrite IH.
Qed.

Lemma has_slash_app a b : has_slash (a +:+ b) = has_slash a || has_slash b.
Proof. induction a as [|c a IH]; simpl; [done|]. by rewrite IH, orb_assoc. Qed.

Lemma has_slash_word w : all_word_chars w = true → has_slash w = false.
Proof.
  induction w as [|c w IH]; simpl; [done|].
  intros [Hc Hw]%andb_true_iff.
  rewrite bool_decide_false by by apply word_char_not_slash. by apply IH.
Qed.

Lemma capitalize_inside w rest :
  all_word_chars w = true →
  capitalize_from false (w +:+ rest) = w +:+ capitalize_from false rest.
Proof.
  induction w as [|c w IH]; simpl; [done|].
  intros [Hc Hw]%andb_true_iff. rewrite Hc. simpl. by rewrite IH.
Qed.

Lemma capitalize_word w rest :
  slug_word w →
  capitalize_from true (w +:+ rest) = capitalized w +:+ capitalize_from false rest.
Proof.
  intros [Hne Hw]. destruct w as [|c w]; [done|]. simpl in *.
  apply andb_true_iff in Hw as [Hc Hw]. rewrite Hc. simpl.
  by rewrite capitalize_inside.
Qed.

Lemma append_empty_r s : s +:+ "" = s.
Proof.
  induction s as [|c s IH]; [done|].
  change (String c (s +:+ "") = String c s). by rewrite IH.
Qed.

Lemma capitalize_words_joined ws :
  Forall slug_word ws →
  capitalize_from true (String.concat " " ws) = String.concat " " (capitalized <$> ws).
Proof.
  induction 1 as [|w ws Hw Hws IH]; [done|].
  destruct ws as [|w' ws'].
  - simpl. rewrite <- (append_empty_r w) at 1.
    rewrite capitalize_word by done. simpl. by rewrite append_empty_r.
  - rewrite fmap_cons. rewrite fmap_cons in IH.
    change (String.concat " " (w :: w' :: ws'))
      with (w +:+ " " +:+ String.concat " " (w' :: ws')).
    change (String.concat " " (capitalized w :: capitalized w' :: (capitalized <$> ws')))
      with (capitalized w +:+ " " +:+
            String.concat " " (capitalized w' :: (capitalized <$> ws'))).
    rewrite capitalize_word by done.
    change (capitalize_from false (" " +:+ String.concat " " (w' :: ws')))
      with (" " +:+ capitalize_from true (String.concat " " (w' :: ws'))).
    by rewrite IH.
Qed.

Lemma replace_hyphens_joined ws :
  Forall slug_word ws →
  replace_hyphens (String.concat "-" ws) = String.concat " " ws.
Proof.
  induction 1 as [|w ws [_ Hw] Hws IH]; [done|].
  destruct ws as [|w' ws'].
  - simpl. by apply replace_hyphens_word.
  - change (String.concat "-" (w :: w' :: ws'))
      with (w +:+ "-" +:+ String.concat "-" (w' :: ws')).
    change (String.concat " " (w :: w' :: ws'))
      with (w +:+ " " +:+ String.concat " " (w' :: ws')).
    rewrite replace_hyphens_app, replace_hyphens_word by done.
    change (replace_hyphens ("-" +:+ String.concat "-" (w' :: ws')))
      with (" " +:+ replace_hyphens (String.concat "-" (w' :: ws'))).
    by rewrite IH.
Qed.

Lemma has_slash_joined ws :
  Forall slug_word ws → has_slash (String.concat "-" ws) = false.
Proof.
  induction 1 as [|w ws [_ Hw] Hws IH]; [done|].
  destruct ws as [|w' ws'].
  - simpl. by apply has_slash_word.
  - change (String.concat "-" (w :: w' :: ws'))
      with (w +:+ "-" +:+ String.concat "-" (w' :: ws')).
    rewrite has_slash_app, has_slash_word by done.
    change (has_slash ("-" +:+ String.concat "-" (w' :: ws')))
      with (has_slash (String.concat "-" (w' :: ws'))).
    exact IH.
Qed.

Lemma joined_nonempty sep ws :
  ws ≠ [] → Forall (fun w => w ≠ "") ws → String.concat sep ws ≠ "".
Proof.
  intros Hne Hall. destruct Hall as [|w ws Hw Hws]; [done|].
  simpl in Hw. destruct w as [|c w]; [done|]. destruct ws as [|w' ws']; [done|].
  change (String c (w +:+ sep +:+ String.concat sep (w' :: ws')) ≠ ""). done.
Qed.

Lemma capitalized_nonempty w : w ≠ "" → capitalized w ≠ "".
Proof. by destruct w. Qed.

Lemma last_segment_plain x : has_slash x = false → List.last (split_slash x) "" = x.
Proof. intros Hx. by rewrite split_slash_plain. Qed.

Lemma last_segment_nested parent x :
  has_slash x = false →
  List.last (split_slash (parent +:+ String slash x)) "" = x.
Proof.
  intros Hx. rewrite split_slash_app, (split_slash_plain x) by done.
  apply last_last.
Qed.

Lemma category_title_of_segment slug ws :
  ws ≠ [] → Forall slug_word ws →
  List.last (split_slash slug) "" = String.concat "-" ws →
  category_title slug = String.concat " " (capitalized <$> ws).
Proof.
  intros Hne Hws Hlast. unfold category_title, capitalize_words. cbv zeta.
  rewrite Hlast, replace_hyphens_joined, capitalize_words_joined by done.
  rewrite decide_False; [done|].
  apply joined_nonempty; [by destruct ws|].
  apply Forall_fmap. eapply Forall_impl; [exact Hws|].
  intros w [Hw _]. by apply capitalized_nonempty.
Qed.

(** X13. The title of a category is read off the last segment of its slug:
    when that segment is made of words joined by hyphens, the title is
    the same words, each with its first letter in upper case, joined by
    spaces, whatever segments come before. *)
Theorem category_title_words (ws : list string) :
  ws ≠ [] → Forall slug_word ws →
  category_title (String.concat "-" ws) = String.concat " " (capitalized <$> ws) ∧
  ∀ parent,
    category_title (parent +:+ String slash (String.concat "-" ws)) =
    String.concat " " (capitalized <$> ws).
Proof.
  intros Hne Hws. split; [|intros parent]; apply category_title_of_segment;
    try done.
  - apply last_segment_plain. by apply has_slash_joined.
  - apply last_segment_nested. by apply has_slash_joined.
Qed.

Lemma capitalize_length b s :
  String.length (capitalize_from b s) = String.length s.
Proof. revert b. induction s as [|c s IH]; intros b; simpl; [done|]. by rewrite IH. Qed.

Lemma replace_hyphens_length s : String.length (replace_hyphens s) = String.length s.
Proof. induction s as [|c s IH]; simpl; [done|]. by rewrite IH. Qed.

(** X14. The title of a category is never empty: a slug that ends in a slash,
    or is empty, gets the title "Category"; otherwise the title has
    exactly the length of the last segment. *)
Theorem category_title_never_empty (slug : string) :
  let last_segment := List.last (split_slash slug) "" in
  category_title slug ≠ "" ∧
  (last_segment = "" → category_title slug = "Category") ∧
  (last_segment ≠ "" →
     String.length (category_title slug) = String.length last_segment).
Proof.
  intros last_segment. unfold category_title, capitalize_words. cbv zeta.
  fold last_segment. split_and!.
  - by case_decide.
  - intros ->. done.
  - intros Hne. case_decide as Hempty.
    + destruct last_segment; [done|]. simpl in Hempty. done.
    + by rewrite capitalize_length, replace_hyphens_length.
Qed.

End CategoryTitleFacts.

(* ===================================================================== *)
(** * The developer guide: installation and error handling *)
(* ===================================================================== *)

Module Guide.

(** The command installDependencies picks for a package manager. *)
Definition install_command (pm : string) : string :=
  if decide (pm = "yarn") then "yarn install"
  else if decide (pm = "pnpm") then "pnpm install"
  else "npm install".

Definition installDependencies (env : Env) (projectPath : path) (pm : string) : M unit :=
  execSync env (CmdLine (install_command pm)) projectPath.

(** "Installation Failure": the installation with its handler. *)
Definition install_or_explain (env : Env) (projectName : string)
    (projectPath : path) (packageManager : string) : M unit :=
  try_catch (installDependencies env projectPath packageManager)
    (fun _ =>
       console_error "Failed to install dependencies.";;
       console_log "You can install manually by running:";;
       console_log ("  cd " +:+ projectName);;
       console_log ("  " +:+ packageManager +:+ " install")).

Definition double_quote : string := String (ascii_of_nat 34) "".
Definition line_feed : string := String (ascii_of_nat 10) "".
Definition bullet : string :=
  String (ascii_of_nat 226) (String (ascii_of_nat 128) (String (ascii_of_nat 162) "")).

(** [problems.forEach(p => console.error(...))] *)
Fixpoint print_problems (ps : list string) : M unit :=
  match ps with
  | [] => skip
  | p :: rest => console_error ("  " +:+ bullet +:+ " " +:+ p);; print_problems rest
  end.

(** "Invalid Project Name": what follows the validation. *)
Definition reject_invalid_name (projectName : string) (validation : NameCheck) : M unit :=
  if negb (valid validation) then
    console_error ("Cannot create a project named " +:+ double_quote +:+
                   projectName +:+ double_quote +:+ ":" +:+ line_feed);;
    match problems validation with
    | Some ps => print_problems ps
    | None => throw TypeError
    end;;
    process_exit 1
  else skip.

End Guide.

Module GuideFacts.
Import Guide.

Lemma prefix_spec needle hay :
  String.prefix needle hay = true ↔ ∃ post, hay = needle +:+ post.
Proof.
  revert hay. induction needle as [|a needle IH]; intros hay.
  - split; [intros _; by exists hay|by destruct hay].
  - destruct hay as [|b hay]; simpl.
    + split; [done|intros [post H]; done].
    + destruct (ascii_dec a b) as [->|Hne].
      * rewrite IH. split; intros [post H]; exists post.
        -- change (String b hay = String b (needle +:+ post)). by rewrite H.
        -- change (String b hay = String b (needle +:+ post)) in H. congruence.
      * split; [done|]. intros [post H].
        change (String b hay = String a (needle +:+ post)) in H. congruence.
Qed.

(** [includes] is the substring test. *)
Lemma includes_spec hay needle :
  includes hay needle = true ↔ ∃ pre post, hay = pre +:+ needle +:+ post.
Proof.
  induction hay as [|c hay IH].
  - change (includes "" needle) with (String.prefix needle "" || false).
    rewrite orb_false_r, prefix_spec. split.
    + intros [post H]. by exists "", post.
    + intros (pre & post & H). destruct pre; [by exists post|done].
  - change (includes (String c hay) needle)
      with (String.prefix needle (String c hay) || includes hay needle).
    rewrite orb_true_iff, prefix_spec, IH. split.
    + intros [[post H]|(pre & post & H)].
      * by exists "", post.
      * exists (String c pre), post.
        change (String c hay = String c (pre +:+ needle +:+ post)). by rewrite H.
    + intros (pre & post & H). destruct pre as [|c' pre].
      * left. by exists post.
      * right. exists pre, post.
        change (String c hay = String c' (pre +:+ needle +:+ post)) in H. congruence.
Qed.

(** X15. Without a flag the user agent decides, by substring: [yarn] anywhere
    in it gives yarn, also when [pnpm] occurs as well; [pnpm] without
    [yarn] gives pnpm; anything else, npm. *)
Theorem detect_by_substring (ua : string) :
  let names word := ∃ pre post, ua = pre +:+ word +:+ post in
  let pm := detectPackageManager (options_of_override None) (Some ua) in
  (pm = yarn ↔ names "yarn") ∧
  (pm = pnpm ↔ names "pnpm" ∧ ¬ names "yarn") ∧
  (pm = npm ↔ ¬ names "pnpm" ∧ ¬ names "yarn").
Proof.
  intros names pm. subst pm names. unfold detectPackageManager. simpl.
  rewrite <- !includes_spec.
  destruct (includes ua "yarn"), (includes ua "pnpm"); split_and!; split;
    try done; try (intros [??]; done); try (by intros [? H]; destruct H).
Qed.

(** X16. The command the guide's installer runs for the detected package
    manager is that manager's own install command; a name it does not
    know falls back to npm's. *)
Theorem install_command_of_detected (options : CreateOptions) (ua : option string) :
  install_command (pm_name (detectPackageManager options ua)) =
    pm_name (detectPackageManager options ua) +:+ " install" ∧
  ∀ pm, pm ≠ "yarn" → pm ≠ "pnpm" → install_command pm = "npm install".
Proof.
  split.
  - by destruct (detectPackageManager options ua).
  - intros pm H1 H2. unfold install_command. by rewrite !decide_False.
Qed.

(** X17. The guide's handler for a failed installation does not end the run:
    it returns, with the file system as the installer left it, after one
    line on the error stream and the two commands to run by hand, and
    for the three package managers the command it shows is the command
    that failed. *)
Theorem install_or_explain_failure (env : Env) (projectName : string)
    (projectPath : path) (pm : PackageManager) (fs : FS) (tr : list event) :
  let cmd := CmdLine (pm_name pm +:+ " install") in
  (child env cmd projectPath fs).1 = false →
  install_or_explain env projectName projectPath (pm_name pm)
    {| files := fs; trace := tr |} =
  (Ret tt,
   {| files := (child env cmd projectPath fs).2;
      trace := tr ++ [Spawn cmd projectPath;
                      Err "Failed to install dependencies.";
                      Log "You can install manually by running:";
                      Log ("  cd " +:+ projectName);
                      Log ("  " +:+ pm_name pm +:+ " install")] |}).
Proof.
  intros cmd Hfail. unfold install_or_explain, installDependencies, try_catch, execSync.
  replace (install_command (pm_name pm)) with (pm_name pm +:+ " install")
    by by destruct pm.
  fold cmd. run_binds. rewrite Hfail. simpl. run_binds.
  unfold console_log, emit. simpl. by rewrite <- !app_assoc.
Qed.

Lemma print_problems_run ps fs tr :
  print_problems ps {| files := fs; trace := tr |} =
  (Ret tt, {| files := fs;
              trace := tr ++ ((fun p => Err ("  " +:+ bullet +:+ " " +:+ p)) <$> ps) |}).
Proof.
  revert tr. induction ps as [|p ps IH]; intros tr.
  - simpl. by rewrite app_nil_r.
  - change (print_problems (p :: ps))
      with (console_error ("  " +:+ bullet +:+ " " +:+ p);; print_problems ps).
    rewrite bind_run. unfold console_error, emit. cbn [files trace].
    rewrite IH, fmap_cons. by rewrite <- app_assoc.
Qed.

(** X18. The guide's rejection of an invalid name, fed with the validator's
    result, ends the run for every name and every answer of the name
    checker: exit code 1 after a heading and one line for every problem,
    the errors first and then the warnings, with the file system
    untouched. The list of problems is always there when it is read. A
    name the checker accepts is turned away as well, with the heading
    alone. *)
Theorem reject_invalid_name_after_validation
    (validateNpmName : string -> NpmValidation) (name : string)
    (fs : FS) (tr : list event) :
  let validation := validateNpmName name in
  let heading := Err ("Cannot create a project named " +:+ double_quote +:+ name +:+
                      double_quote +:+ ":" +:+ line_feed) in
  reject_invalid_name name (validateProjectName validateNpmName name)
    {| files := fs; trace := tr |} =
    (Exit 1,
     {| files := fs;
        trace := tr ++
          heading ::
          ((fun p => Err ("  " +:+ bullet +:+ " " +:+ p)) <$>
             (or_empty (nv_errors validation) ++ or_empty (nv_warnings validation))) |}) ∧
  reject_invalid_name "my-docs" (validateProjectName NameExamples.accepted "my-docs")
    {| files := fs; trace := tr |} =
    (Exit 1,
     {| files := fs;
        trace := tr ++ [Err ("Cannot create a project named " +:+ double_quote +:+
                             "my-docs" +:+ double_quote +:+ ":" +:+ line_feed)] |}).
Proof.
  intros validation heading.
  assert (∀ lib n,
    reject_invalid_name n (validateProjectName lib n) {| files := fs; trace := tr |} =
    (Exit 1,
     {| files := fs;
        trace := tr ++
          Err ("Cannot create a project named " +:+ double_quote +:+ n +:+
               double_quote +:+ ":" +:+ line_feed) ::
          ((fun p => Err ("  " +:+ bullet +:+ " " +:+ p)) <$>
             (or_empty (nv_errors (lib n)) ++ or_empty (nv_warnings (lib n)))) |}))
    as Hrun.
  { intros lib n. rewrite validateProjectName_run.
    unfold reject_invalid_name. cbn [valid problems negb].
    rewrite bind_run. unfold console_error at 1, emit. cbn [files trace].
    rewrite bind_run, print_problems_run. cbn [files trace].
    unfold process_exit. by rewrite <- app_assoc. }
  split; [apply Hrun|]. by rewrite Hrun.
Qed.

End GuideFacts.

(* ===================================================================== *)
(** * Further concrete cases *)
(* ===================================================================== *)

Module Cases.

(** The concrete installation, with no write access anywhere. *)
Definition read_only : Env :=
  {| cwd := ["home"; "user"]; module_dir := ["pkg"; "dist"];
     isWriteable := fun _ => false;
     benign := fun name => bool_decide (name ∈ Demo.allow_list);
     getPackageManagerCommand := Demo.commands;
     JSON_parse := Demo.parse; JSON_stringify := Demo.stringify;
     child := Demo.children true true |}.


(** A template that ships an ignore file and no manifest. *)
Definition disk_with_bare_template : FS :=
  <[["pkg"; "templates"; "bare"; "gitignore"] := File "dist"]>
    (<[["pkg"; "templates"; "bare"] := Dir]> Demo.disk).

(** A template whose manifest is a JSON array. *)
Definition disk_with_array_manifest : FS :=
  <[["pkg"; "templates"; "listed"; "package.json"] := File "[]"]>
    (<[["pkg"; "templates"; "listed"] := Dir]> Demo.disk).

(** A parser that also knows the empty array, with or without the final
    newline. *)
Definition parse_with_arrays (text : string) : option json :=
  if decide (text = "[]") then Some (JArray [])
  else if decide (text = "[]" +:+ Demo.newline) then Some (JArray [])
  else Demo.parse text.

Definition env_with_arrays : Env :=
  {| cwd := ["home"; "user"]; module_dir := ["pkg"; "dist"];
     isWriteable := fun _ => true;
     benign := fun name => bool_decide (name ∈ Demo.allow_list);
     getPackageManagerCommand := Demo.commands;
     JSON_parse := parse_with_arrays; JSON_stringify := Demo.stringify;
     child := Demo.children true true |}.

(** The concrete installation, run from inside its templates directory. *)
Definition env_in_templates : Env :=
  {| cwd := ["pkg"; "templates"]; module_dir := ["pkg"; "dist"];
     isWriteable := fun _ => true;
     benign := fun name => bool_decide (name ∈ Demo.allow_list);
     getPackageManagerCommand := Demo.commands;
     JSON_parse := Demo.parse; JSON_stringify := Demo.stringify;
     child := Demo.children true true |}.

Definition guide_doc : DocsPage.Doc :=
  {| DocsPage.meta := {| DocsPage.meta_title := Some "Getting started";
                         DocsPage.meta_description := None;
                         DocsPage.tab_group := None |};
     DocsPage.title := "getting-started";
     DocsPage.slug := "guides/getting-started";
     DocsPage.content := "# Getting started";
     DocsPage.categoryTabGroup := None |}.

Definition all_docs (version : string) : list DocsPage.Doc :=
  if decide (version = "v1.0.0") then [guide_doc] else [].

Definition doc_by_slug (slug version : string) : option DocsPage.Doc :=
  List.find (fun d => bool_decide (DocsPage.slug d = slug)) (all_docs version).

(** A slug is a category when some document lies below it. *)
Definition is_category (slug : string) (docs : list DocsPage.Doc) : bool :=
  existsb (fun d => String.prefix (slug +:+ "/") (DocsPage.slug d)) docs.

Definition no_neighbours (slug : string) (docs : list DocsPage.Doc)
    : option DocsPage.Doc * option DocsPage.Doc := (None, None).

Definition headings (content : string) : list string := [content].

End Cases.

(** C5 as stated fails: a run that ends well can write a manifest without
    a name. The template's manifest here is the JSON array [[]]: the
    assignment of the name is lost, and the manifest written, and left in
    the destination at the end, is that array again. *)
Lemma manifest_without_name :
  let manifest := ["home"; "user"; "my-docs"; "package.json"] in
  let r := run (createProject Cases.env_with_arrays
                  (Demo.request "my-docs" "listed" true))
               Cases.disk_with_array_manifest in
  r.1 = Ret tt ∧
  written (trace r.2) = [(manifest, "[]" +:+ Demo.newline)] ∧
  files r.2 !! manifest = Some (File ("[]" +:+ Demo.newline)) ∧
  JSON_parse Cases.env_with_arrays ("[]" +:+ Demo.newline) = Some (JArray []) ∧
  includes ("[]" +:+ Demo.newline) "my-docs" = false.
Proof. by vm_compute. Qed.

(** C8 as stated fails: a run can reach the manifest rewrite with a file
    [gitignore] in the copied tree and never rename it. The template here
    has a [gitignore] but no [package.json]: the copy returns, the rewrite
    throws, and the destination keeps [gitignore] under its undotted
    name. *)
Lemma gitignore_left_undotted :
  let env := Demo.env true true in
  let o := Demo.request "my-docs" "bare" true in
  let root := ["home"; "user"; "my-docs"] in
  let staged := run (materialize env o) Cases.disk_with_bare_template in
  let r := run (createProject env o) Cases.disk_with_bare_template in
  staged.1 = Ret tt ∧
  is_Some (files staged.2 !! (root ++ ["gitignore"])) ∧
  r.1 = Throw (ENOENT (root ++ ["package.json"])) ∧
  files r.2 !! (root ++ ["gitignore"]) = files staged.2 !! (root ++ ["gitignore"]) ∧
  files r.2 !! (root ++ [".gitignore"]) = None ∧
  Forall (fun e => ∀ a b, e ≠ Rename a b) (trace r.2).
Proof.
  vm_compute. split_and!; eauto. repeat constructor; discriminate.
Qed.

(** A template directory on the way to the destination: it does not exist
    when the run starts, the destination check creates it, and the
    template test passes. The run ends later, on the manifest the empty
    template does not have. *)
Example template_made_by_the_destination :
  let o := Demo.request "nope/x" "nope" true in
  let r := run (createProject Cases.env_in_templates o) Demo.disk in
  template_dir Cases.env_in_templates o = ["pkg"; "templates"; "nope"] ∧
  destination Cases.env_in_templates o = ["pkg"; "templates"; "nope"; "x"] ∧
  Demo.disk !! ["pkg"; "templates"; "nope"] = None ∧
  r.1 = Throw (ENOENT ["pkg"; "templates"; "nope"; "x"; "package.json"]) ∧
  files r.2 !! ["pkg"; "templates"; "nope"] = Some Dir ∧
  errors (trace r.2) = [].
Proof. by vm_compute. Qed.

Lemma createProject_unwritable_witness :
  (run (createProject Cases.read_only (Demo.request "existing-dir" "minimal" false))
       Demo.disk_with_notes).1 = Exit 1.
Proof.
  rewrite (createProject_unwritable Cases.read_only
             (Demo.request "existing-dir" "minimal" false) Demo.disk_with_notes).
  - reflexivity.
  - vm_compute. eauto.
  - reflexivity.
Defined.


Lemma scaffold_frame_witness :
  let fs' := files (run (scaffold (Demo.env true true)
                           (Demo.request "a/my-docs" "minimal" true)) Demo.disk).2 in
  fs' !! ["home"; "user"; "a"] = Demo.disk !! ["home"; "user"; "a"] ∨
  (Demo.disk !! ["home"; "user"; "a"] = None ∧ fs' !! ["home"; "user"; "a"] = Some Dir ∧
   ["home"; "user"; "a"] `prefix_of`
     destination (Demo.env true true) (Demo.request "a/my-docs" "minimal" true)).
Proof.
  apply (scaffold_frame (Demo.env true true) (Demo.request "a/my-docs" "minimal" true)
           Demo.disk ["home"; "user"; "a"]).
  reflexivity.
Defined.

Lemma patches_frame_witness :
  let o := Demo.request "my-docs" "minimal" true in
  let w1 := (run (materialize (Demo.env true true) o) Demo.disk).2 in
  let w2 := ((updatePackageJson (Demo.env true true) (destination (Demo.env true true) o)
                (path_basename (destination (Demo.env true true) o));;
              renameGitignore (destination (Demo.env true true) o)) w1).2 in
  files w2 !! ["home"; "user"; "my-docs"; "app"; "page.tsx"] =
  files w1 !! ["home"; "user"; "my-docs"; "app"; "page.tsx"].
Proof.
  apply (patches_frame (Demo.env true true) (Demo.request "my-docs" "minimal" true)).
  - intros H. vm_compute in H. discriminate.
  - reflexivity.
  - reflexivity.
Defined.

Lemma createProject_manifest_unusable_witness :
  (run (createProject (Demo.env true true) (Demo.request "my-docs" "bare" true))
       Cases.disk_with_bare_template).1 =
  Throw (ENOENT ["home"; "user"; "my-docs"; "package.json"]).
Proof.
  destruct (createProject_manifest_unusable (Demo.env true true)
              (Demo.request "my-docs" "bare" true) Cases.disk_with_bare_template
              (run (materialize (Demo.env true true)
                      (Demo.request "my-docs" "bare" true))
                   Cases.disk_with_bare_template).2) as [Hmissing _].
  - apply outcome_pair. by_evaluation.
  - rewrite Hmissing; [reflexivity|]. by_evaluation.
Defined.

Lemma createProject_reports_next_steps_witness :
  ∃ earlier,
    console (trace (run (createProject (Demo.env true true)
                           (Demo.request "my-docs" "minimal" true)) Demo.disk).2) =
    earlier ++ ["We suggest that you begin by typing:"; ""; "  cd my-docs";
                "  npm run dev"; ""].
Proof.
  apply (createProject_reports_next_steps (Demo.env true true)
           (Demo.request "my-docs" "minimal" true) Demo.disk).
  apply outcome_pair. by_evaluation.
Defined.

Lemma createProject_install_fails_witness :
  (run (createProject (Demo.env false true) (Demo.request "my-docs" "minimal" false))
       Demo.disk).1 = Exit 1.
Proof.
  rewrite (createProject_install_fails (Demo.env false true)
             (Demo.request "my-docs" "minimal" false) Demo.disk
             (run (scaffold (Demo.env false true)
                     (Demo.request "my-docs" "minimal" false)) Demo.disk).2).
  - reflexivity.
  - reflexivity.
  - apply outcome_pair. by_evaluation.
  - reflexivity.
Defined.

Lemma category_without_document_witness :
  DocsPage.md_title
    (DocsPage.generateMetadata Cases.doc_by_slug "v1.0.0" ["guides"]) = "Page Not Found" ∧
  DocsPage.page_body
    (DocsPage.DocPage Cases.doc_by_slug Cases.all_docs Cases.is_category
       Cases.no_neighbours Cases.headings "v1.0.0" ["guides"]) =
  DocsPage.CategoryIndexOfSlug "guides" "v1.0.0" "Guides"
    "Browse the documentation in this section.".
Proof.
  destruct (DocsPageFacts.category_without_document Cases.doc_by_slug Cases.all_docs
              Cases.is_category Cases.no_neighbours string Cases.headings
              "v1.0.0" ["guides"]) as (Htitle & _ & _ & Hcategory & _).
  - reflexivity.
  - split; [exact Htitle|]. rewrite Hcategory; reflexivity.
Defined.

Lemma static_params_round_trip_witness :
  ∃ segments,
    ("v1.0.0", segments) ∈
      DocsPage.generateStaticParams Cases.all_docs ["v1.0.0"; "v2.0.0"] ∧
    DocsPage.join_slash segments = "guides/getting-started".
Proof.
  destruct (DocsPageFacts.static_params_round_trip Cases.doc_by_slug Cases.all_docs
              ["v1.0.0"; "v2.0.0"] "v1.0.0" Cases.guide_doc)
    as (segments & Hin & Hjoin & _).
  - by left.
  - by left.
  - right. vm_compute. intros H. by repeat (apply elem_of_cons in H as [H|H]; [done|]);
      apply elem_of_nil in H.
  - by exists segments.
Defined.

Lemma static_params_segments_witness :
  "getting-started" ≠ "" ∧ has_slash "getting-started" = false.
Proof.
  destruct (DocsPageFacts.static_params_segments Cases.all_docs
              ["v1.0.0"; "v2.0.0"] "v1.0.0" ["guides"; "getting-started"])
    as (_ & _ & Hsegments).
  - vm_compute. by left.
  - apply Hsegments. right. by left.
Defined.

Lemma category_title_words_witness :
  DocsPage.category_title "guides/getting-started" = "Getting Started".
Proof.
  apply (CategoryTitleFacts.category_title_words ["getting"; "started"]).
  - done.
  - repeat constructor; done.
Defined.

Lemma install_or_explain_failure_witness :
  (Guide.install_or_explain (Demo.env false true) "my-docs" ["home"; "user"; "my-docs"]
     (pm_name pnpm) {| files := Demo.disk; trace := [] |}).1 = Ret tt.
Proof.
  rewrite (GuideFacts.install_or_explain_failure (Demo.env false true) "my-docs"
             ["home"; "user"; "my-docs"] pnpm Demo.disk []).
  - reflexivity.
  - reflexivity.
Defined.
